(** * cord19-elk: the relation reification, filtering and inversion engine

    A shallow embedding of the part of [pipeline/covid.py] that turns the
    Harvard processing results into reified relations, keeps the significant
    ones and inverts them into a per-file index:

      - [HarvardResults.collect_relations]
      - [reify_relations] and [index_by_fname]
      - [RelationImporter.filter_relobjs] with [size_of] and [is_big]
      - [RelationImporter.invert_filtered_relobjs]
      - the index-building part of [RelationImporter.convert], and the loop
        of [RelationImporter.convert_file],

    and of the code around it: the tables of [Metadata], the counters of
    [Identifiers], the offsets of [Converter], and
    [Document._collect_relations] of [pipeline/create_index.py].

    Python dictionaries keep their insertion order, and every loop of the
    engine depends on it, so a dictionary is an association list in insertion
    order whose keys are pairwise distinct.  The metadata tables, which are
    only ever looked up, are [gmap]s. *)

From stdpp Require Import base option list gmap strings sorting pretty.
From Stdlib Require Import ZArith Sorted Permutation.

Local Open Scope string_scope.
Local Open Scope nat_scope.
Local Open Scope list_scope.

(** ** Values loaded by [json.load] *)

(** Numbers are integers here; a float behaves like an integer everywhere
    below (it is hashable, it is no string, it has no [get]). *)
Local Unset Elimination Schemes.
Inductive json : Type :=
  | JNull
  | JBool (b : bool)
  | JNum (z : Z)
  | JStr (s : string)
  | JList (items : list json)
  | JObj (members : list (string * json)).
Local Set Elimination Schemes.

(** ** Exceptions *)

Inductive exn : Type := KeyError | TypeError | AttributeError.

Inductive outcome (A : Type) : Type :=
  | Ok (a : A)
  | Raise (e : exn).
Arguments Ok {A} a.
Arguments Raise {A} e.

Global Instance outcome_ret : MRet outcome := fun A a => Ok a.
Global Instance outcome_bind : MBind outcome := fun A B f m =>
  match m with
  | Ok a => f a
  | Raise e => Raise e
  end.

(** A [for] loop whose body may raise: the first exception ends the loop. *)
Fixpoint for_each {A S : Type} (body : S -> A -> outcome S) (l : list A) (s : S)
  : outcome S :=
  match l with
  | [] => Ok s
  | x :: l' =>
      match body s x with
      | Ok s' => for_each body l' s'
      | Raise e => Raise e
      end
  end.

(** ** Insertion-ordered dictionaries *)

Module odict.
Section odict.
Context {K V : Type} `{EqDecision K}.

Definition keys (d : list (K * V)) : list K := d.*1.
Definition values (d : list (K * V)) : list V := d.*2.

(** [d.get(k)] *)
Fixpoint get (k : K) (d : list (K * V)) : option V :=
  match d with
  | [] => None
  | (k', v) :: d' => if decide (k' = k) then Some v else get k d'
  end.

(** [d.setdefault(k, v)], as far as [d] is concerned: a new key goes last. *)
Definition setdefault (k : K) (v : V) (d : list (K * V)) : list (K * V) :=
  match get k d with
  | Some _ => d
  | None => d ++ [(k, v)]
  end.

(** In-place update of the value stored under [k]. *)
Fixpoint alter (f : V -> V) (k : K) (d : list (K * V)) : list (K * V) :=
  match d with
  | [] => []
  | (k', v) :: d' =>
      if decide (k' = k) then (k', f v) :: d' else (k', v) :: alter f k d'
  end.
End odict.
End odict.

(** ** Relation types *)

Inductive reltype : Type := Activation | Inhibition | IncreaseAmount | DecreaseAmount.

Global Instance reltype_eq_dec : EqDecision reltype.
Proof. solve_decision. Defined.

Definition reltype_name (rt : reltype) : string :=
  match rt with
  | Activation => "Activation"
  | Inhibition => "Inhibition"
  | IncreaseAmount => "IncreaseAmount"
  | DecreaseAmount => "DecreaseAmount"
  end.

(** The table [RELTYPES], in the order it is written. *)
Definition RELTYPES : list (reltype * (string * string)) :=
  [ (Activation, ("activates", "activator"));
    (Inhibition, ("inhibits", "inhibitor"));
    (IncreaseAmount, ("increases", "increaser"));
    (DecreaseAmount, ("decreases", "decreaser")) ].

(** [RELTYPES.get(reltype, (None, None))[1]]; [None] is Python's [None]. *)
Definition translate_reltype_into_role (rt : reltype) : option string :=
  match odict.get rt RELTYPES with
  | Some (_, role) => Some role
  | None => None
  end.

Definition translate_reltype_into_action (rt : reltype) : option string :=
  match odict.get rt RELTYPES with
  | Some (action, _) => Some action
  | None => None
  end.

(** [reltype not in target_relations]: the tuple is searched with [==], and
    only a string equals a string. *)
Definition target_relation (v : json) : option reltype :=
  match v with
  | JStr s =>
      if String.eqb s "Activation" then Some Activation
      else if String.eqb s "Inhibition" then Some Inhibition
      else if String.eqb s "IncreaseAmount" then Some IncreaseAmount
      else if String.eqb s "DecreaseAmount" then Some DecreaseAmount
      else None
  | _ => None
  end.

(** ** Access to loaded values *)

(** [v[k]] for a string [k]. *)
Definition getitem (v : json) (k : string) : outcome json :=
  match v with
  | JObj d =>
      match odict.get k d with
      | Some x => Ok x
      | None => Raise KeyError
      end
  | _ => Raise TypeError
  end.

(** [v.get(k)]: only a dictionary has the method. *)
Definition get_method (v : json) (k : string) : outcome json :=
  match v with
  | JObj d => Ok (default JNull (odict.get k d))
  | _ => Raise AttributeError
  end.

Fixpoint characters (s : string) : list json :=
  match s with
  | EmptyString => []
  | String c s' => JStr (String c EmptyString) :: characters s'
  end.

(** [for e in v]: a list yields its items, a dictionary its keys, a string
    its characters; nothing else is iterable. *)
Definition iterate (v : json) : outcome (list json) :=
  match v with
  | JList l => Ok l
  | JObj d => Ok (JStr <$> odict.keys d)
  | JStr s => Ok (characters s)
  | _ => Raise TypeError
  end.

(** [l[:n]] *)
Definition slice_to (n : Z) {A : Type} (l : list A) : list A :=
  if (n <? 0)%Z then take (length l - Z.to_nat (- n)) l
  else take (Z.to_nat n) l.

(** ** Metadata *)

(** Of the tables of [Metadata] only [pmid2sha] is used by the engine; its
    keys and values are fields of the CSV file, hence strings. *)
Record Metadata : Type := { pmid2sha : gmap string string }.

(** [metadata.get_sha(pmid)], that is [self.pmid2sha.get(pmid)]: a list or a
    dictionary is unhashable, any other value that is no string is hashable
    and equal to no key. *)
Definition get_sha (metadata : Metadata) (pmid : json) : outcome (option string) :=
  match pmid with
  | JStr s => Ok (pmid2sha metadata !! s)
  | JList _ | JObj _ => Raise TypeError
  | _ => Ok None
  end.

(** ** [HarvardResults.collect_relations] *)

(** The tuple [(pmid, sha, text)]. *)
Definition evidence_tuple : Type := json * string * json.

(** The tuple [(reltype, sub, obj, evidence)]; the names are whatever the
    record holds under ['name']. *)
Definition collected : Type := reltype * json * json * list evidence_tuple.

(** The body of [for e in result['evidence']]. *)
Definition collect_evidence_entry (metadata : Metadata)
    (evidence : list evidence_tuple) (e : json) : outcome (list evidence_tuple) :=
  pmid ← get_method e "pmid";
  text ← get_method e "text";
  sha ← get_sha metadata pmid;
  match sha with
  | Some sha => Ok (evidence ++ [(pmid, sha, text)])
  | None => Ok evidence
  end.

(** The [try] block: both names, or the exception that interrupted it. *)
Definition subject_and_object (result : json) : outcome (json * json) :=
  subj ← getitem result "subj";
  sub ← getitem subj "name";
  obj' ← getitem result "obj";
  obj ← getitem obj' "name";
  Ok (sub, obj).

(** The body of [for result in self.results[:n]]. *)
Definition collect_record (metadata : Metadata)
    (relations : list collected) (result : json) : outcome (list collected) :=
  reltype ← getitem result "type";
  match target_relation reltype with
  | None => Ok relations
  | Some rt =>
      match subject_and_object result with
      | Raise KeyError => Ok relations
      | Raise e => Raise e
      | Ok (sub, obj) =>
          field ← getitem result "evidence";
          entries ← iterate field;
          evidence ← for_each (collect_evidence_entry metadata) entries [];
          match evidence with
          | [] => Ok relations
          | _ :: _ => Ok (relations ++ [(rt, sub, obj, evidence)])
          end
      end
  end.

Definition collect_relations (results : list json) (metadata : Metadata) (n : Z)
  : outcome (list collected) :=
  for_each (collect_record metadata) (slice_to n results) [].

(** The default of the parameter [n]. *)
Definition collect_relations_default_n : Z := 100000.

(** ** Relations with string names *)

(** [reify_relations] formats the object name into a key and the filter
    sorts on the subject name.  Both are modelled for names that are strings,
    which is what the processing results hold; [string_names] is the
    identity on such a relation and undefined on any other. *)
Definition relation_tuple : Type := reltype * string * string * list evidence_tuple.

Definition string_names (c : collected) : option relation_tuple :=
  match c with
  | (rt, JStr sub, JStr obj, evidence) => Some (rt, sub, obj, evidence)
  | _ => None
  end.

(** ** Dictionaries keyed by the four relation types *)

(** [{ reltype: {} for reltype in RELTYPES }] has the four relation types as
    its keys, in the order of [RELTYPES], and no key is ever added or
    removed: such a dictionary is a record with one field per type. *)
Record per_reltype (A : Type) : Type := PerReltype {
  at_Activation : A;
  at_Inhibition : A;
  at_IncreaseAmount : A;
  at_DecreaseAmount : A
}.
Arguments PerReltype {A} _ _ _ _.
Arguments at_Activation {A} _.
Arguments at_Inhibition {A} _.
Arguments at_IncreaseAmount {A} _.
Arguments at_DecreaseAmount {A} _.

(** [{ reltype: a for reltype in RELTYPES }] *)
Definition pr_init {A : Type} (a : A) : per_reltype A := PerReltype a a a a.

(** [d[reltype]] *)
Definition pr_get {A : Type} (d : per_reltype A) (rt : reltype) : A :=
  match rt with
  | Activation => at_Activation d
  | Inhibition => at_Inhibition d
  | IncreaseAmount => at_IncreaseAmount d
  | DecreaseAmount => at_DecreaseAmount d
  end.

(** In-place update of [d[reltype]]. *)
Definition pr_alter {A : Type} (f : A -> A) (rt : reltype) (d : per_reltype A)
  : per_reltype A :=
  match rt with
  | Activation =>
      PerReltype (f (at_Activation d)) (at_Inhibition d) (at_IncreaseAmount d) (at_DecreaseAmount d)
  | Inhibition =>
      PerReltype (at_Activation d) (f (at_Inhibition d)) (at_IncreaseAmount d) (at_DecreaseAmount d)
  | IncreaseAmount =>
      PerReltype (at_Activation d) (at_Inhibition d) (f (at_IncreaseAmount d)) (at_DecreaseAmount d)
  | DecreaseAmount =>
      PerReltype (at_Activation d) (at_Inhibition d) (at_IncreaseAmount d) (f (at_DecreaseAmount d))
  end.

(** [for reltype in d]: the keys in insertion order. *)
Definition pr_keys {A : Type} (d : per_reltype A) : list reltype := odict.keys RELTYPES.

(** ** [reify_relations] *)

(** The dictionary [{'pmid': e[0], 'sha': e[1], 'text': e[2]}]. *)
Record occurrence : Type := { pmid : json; sha : string; text : json }.

(** Subject name to occurrences. *)
Abbreviation subjects := (list (string * list occurrence)).
(** Reified relation to subjects. *)
Abbreviation relobjs := (list (string * subjects)).

(** ["%s" % role] *)
Definition percent_s (role : option string) : string := default "None" role.

Definition reify_relation (rels : per_reltype relobjs) (rel : relation_tuple)
  : per_reltype relobjs :=
  let '(rel0, rel1, rel2, rel3) := rel in
  let reified_rel := rel2 +:+ "-" +:+ percent_s (translate_reltype_into_role rel0) in
  let rels := pr_alter (odict.setdefault reified_rel []) rel0 rels in
  let ds := (fun e : evidence_tuple => {| pmid := e.1.1; sha := e.1.2; text := e.2 |}) <$> rel3 in
  pr_alter
    (odict.alter
       (fun subjs => odict.alter (fun l => l ++ ds) rel1 (odict.setdefault rel1 [] subjs))
       reified_rel)
    rel0 rels.

Definition reify_relations (relations : list relation_tuple) : per_reltype relobjs :=
  fold_left reify_relation relations (pr_init []).

(** ** [size_of] and [is_big] *)

Definition size_of {A : Type} (subj_sentences : list (list A)) : nat :=
  sum_list (length <$> subj_sentences).

(** [s.endswith(suffix)] *)
Definition endswith (s suffix : string) : bool :=
  let n := String.length s in
  let m := String.length suffix in
  (m <=? n) && String.eqb (String.substring (n - m) m s) suffix.

Definition minimum_size (rt : reltype) : nat :=
  if endswith (reltype_name rt) "Amount" then 25 else 100.

Definition is_big {A : Type} (subj_sentences : list (list A)) (rt : reltype) : bool :=
  minimum_size rt <=? size_of subj_sentences.

(** ** [sorted] *)

(** [sorted] is stable and uses [<] only. *)
Section sorted.
Context {A : Type} (lt : A -> A -> bool).

Fixpoint insert_sorted (x : A) (l : list A) : list A :=
  match l with
  | [] => [x]
  | y :: l' => if lt y x then y :: insert_sorted x l' else x :: y :: l'
  end.

Fixpoint sorted (l : list A) : list A :=
  match l with
  | [] => []
  | x :: l' => insert_sorted x (sorted l')
  end.
End sorted.

(** [<] on the pairs [(count, name)]: the first component that differs
    decides; strings compare by code point. *)
Definition pair_lt (a b : nat * string) : bool :=
  if decide (a.1 = b.1) then String.ltb a.2 b.2 else a.1 <? b.1.

(** [<] on the tuples [(len(v), k, v)].  Two tuples built from the items of
    one dictionary differ in [k], so the lists [v] are never compared. *)
Definition tuple_lt {V : Type} (a b : nat * string * V) : bool := pair_lt a.1 b.1.

(** ** [RelationImporter.filter_relobjs] *)

(** The dictionary [{'size': ..., 'data': ...}]. *)
Record entry : Type := { size : nat; data : subjects }.

(** [list(reversed(sorted([(len(v), k, v) for k, v in subjects.items()])))] *)
Definition subjects_sorted (subjs : subjects) : list (nat * string * list occurrence) :=
  reverse (sorted tuple_lt ((fun kv => (length kv.2, kv.1, kv.2)) <$> subjs)).

(** [d['data'].setdefault(subj, []).extend(val)] on the dictionary [d]. *)
Definition extend_data (subj : string) (val : list occurrence) (e : entry) : entry :=
  {| size := size e;
     data := odict.alter (fun l => l ++ val) subj (odict.setdefault subj [] (data e)) |}.

(** The body of [for rel_obj in self.reified_rels[reltype]], with
    [subjects = self.reified_rels[reltype][rel_obj]]: the loop is taken over
    the items of the dictionary. *)
Definition filter_relobj (rt : reltype)
    (filtered_rels : per_reltype (list (string * entry)))
    (item : string * subjects) : per_reltype (list (string * entry)) :=
  let '(rel_obj, subjs) := item in
  if negb (is_big (odict.values subjs) rt) then filtered_rels
  else
    let filtered_rels :=
      pr_alter
        (odict.setdefault rel_obj {| size := size_of (odict.values subjs); data := [] |})
        rt filtered_rels in
    fold_left
      (fun filtered_rels '(i, subj, val) =>
         pr_alter (odict.alter (extend_data subj val) rel_obj) rt filtered_rels)
      (take 8 (subjects_sorted subjs)) filtered_rels.

Definition filter_relobjs (reified_rels : per_reltype relobjs)
  : per_reltype (list (string * entry)) :=
  fold_left
    (fun filtered_rels rt =>
       fold_left (filter_relobj rt) (pr_get reified_rels rt) filtered_rels)
    (pr_keys reified_rels) (pr_init []).

(** ** [RelationImporter.invert_filtered_relobjs] *)

(** File name to the pairs [(relobj, subj)]. *)
Abbreviation inverted := (list (string * list (string * string))).

(** [inverted_rels.setdefault(e['sha'] + '.json', []).append((relobj, subj))] *)
Definition invert_occurrence (relobj subj : string) (inverted_rels : inverted)
    (e : occurrence) : inverted :=
  let fname := sha e +:+ ".json" in
  odict.alter (fun l => l ++ [(relobj, subj)]) fname (odict.setdefault fname [] inverted_rels).

(** The loops over a dictionary and its values are taken over its items. *)
Definition invert_filtered_relobjs (reified_rels : per_reltype relobjs)
    (filtered_rels : per_reltype (list (string * entry))) : inverted :=
  fold_left
    (fun inverted_rels rt =>
       fold_left
         (fun inverted_rels '(relobj, e) =>
            fold_left
              (fun inverted_rels '(subj, occs) =>
                 fold_left (invert_occurrence relobj subj) occs inverted_rels)
              (data e) inverted_rels)
         (pr_get filtered_rels rt) inverted_rels)
    (pr_keys reified_rels) [].

(** ** [RelationImporter] *)

(** How a run of the index-building part of [convert] ends. *)
Inductive run (A : Type) : Type :=
  | Finished (a : A)
  | Failed (e : exn)
  | NonStringName.
Arguments Finished {A} a.
Arguments Failed {A} e.
Arguments NonStringName {A}.

Module RelationImporter.

(** The object [self]; an attribute that has not been assigned yet is
    [None]. *)
Record t : Type := {
  metadata : Metadata;
  results : list json;
  relations : option (list relation_tuple);
  reified_rels : option (per_reltype relobjs);
  filtered_rels : option (per_reltype (list (string * entry)));
  inverted_rels : option inverted
}.

(** The object as [__init__] leaves it. *)
Definition init (md : Metadata) (res : list json) : t :=
  {| metadata := md; results := res; relations := None; reified_rels := None;
     filtered_rels := None; inverted_rels := None |}.

(** [convert] up to the loop over the files: [collect_relations] is called
    without [n]. *)
Definition convert (self : t) : run t :=
  match collect_relations (results self) (metadata self) collect_relations_default_n with
  | Raise e => Failed e
  | Ok rels =>
      match mapM string_names rels with
      | None => NonStringName
      | Some rels =>
          let reified := reify_relations rels in
          let filtered := filter_relobjs reified in
          Finished
            {| metadata := metadata self;
               results := results self;
               relations := Some rels;
               reified_rels := Some reified;
               filtered_rels := Some filtered;
               inverted_rels := Some (invert_filtered_relobjs reified filtered) |}
      end
  end.

(** [self.inverted_rels.get(fname, [])] in [convert_file]. *)
Definition relations_of_file (inv : inverted) (fname : string)
  : list (string * string) :=
  default [] (odict.get fname inv).

(** The loop of [convert_file] on [lif.metadata]:
    [lif.metadata.setdefault(relobj, []).append(subj)]. *)
Definition convert_file (inv : inverted) (fname : string)
    (lif_metadata : list (string * list string)) : list (string * list string) :=
  fold_left
    (fun md '(relobj, subj) =>
       odict.alter (fun l => l ++ [subj]) relobj (odict.setdefault relobj [] md))
    (relations_of_file inv fname) lif_metadata.

End RelationImporter.

(** ** Shapes of the indexes *)

(** A dictionary has pairwise distinct keys. *)
Definition wf_subjects (subjs : subjects) : Prop := NoDup (odict.keys subjs).

Definition wf_relobjs (d : relobjs) : Prop :=
  NoDup (odict.keys d) /\ Forall (fun ks => wf_subjects ks.2) d.

Definition wf_index (idx : per_reltype relobjs) : Prop :=
  forall rt, wf_relobjs (pr_get idx rt).

(** Every list of occurrences of the index holds an occurrence. *)
Definition occupied (idx : per_reltype relobjs) : Prop :=
  forall rt, Forall (fun ks : string * subjects => Forall (fun kv => kv.2 <> []) ks.2) (pr_get idx rt).

(** What one relation does to the dictionary of its type. *)
Definition reify_into (rel : relation_tuple) (d : relobjs) : relobjs :=
  let reified_rel := rel.1.2 +:+ "-" +:+ percent_s (translate_reltype_into_role rel.1.1.1) in
  let ds := (fun e : evidence_tuple => {| pmid := e.1.1; sha := e.1.2; text := e.2 |}) <$> rel.2 in
  odict.alter
    (fun subjs => odict.alter (fun l => l ++ ds) rel.1.1.2 (odict.setdefault rel.1.1.2 [] subjs))
    reified_rel (odict.setdefault reified_rel [] d).

(** [a] may stand before [b] in a sorted list: [b < a] does not hold. *)
Definition not_after {A : Type} (lt : A -> A -> bool) (a b : A) : Prop := lt b a = false.

(** The subjects kept for a reified relation, and its entry. *)
Definition retained (subjs : subjects) : subjects :=
  (fun t : nat * string * list occurrence => (t.1.2, t.2)) <$> take 8 (subjects_sorted subjs).

Definition filtered_entry (subjs : subjects) : entry :=
  {| size := size_of (odict.values subjs); data := retained subjs |}.

(** The reified relations of one type that are big enough, with their
    entries. *)
Definition significant (rt : reltype) (d : relobjs) : list (string * entry) :=
  omap
    (fun ks : string * subjects =>
       if is_big (odict.values ks.2) rt then Some (ks.1, filtered_entry ks.2) else None)
    d.

(** The body of the loop over the reified relations, on the dictionary of
    the relation type. *)
Definition filter_into (rt : reltype) (d : list (string * entry))
    (item : string * subjects) : list (string * entry) :=
  if negb (is_big (odict.values item.2) rt) then d
  else
    fold_left
      (fun d t => odict.alter (extend_data t.1.2 t.2) item.1 d)
      (take 8 (subjects_sorted item.2))
      (odict.setdefault item.1 {| size := size_of (odict.values item.2); data := [] |} d).

(** ** The inverter, as one loop *)

(** The occurrences met by the loops of the inverter over the entries of one
    relation type, in the order they are met: the file name each is stored
    under, and the pair stored. *)
Definition reachable_in (items : list (string * entry)) : list (string * (string * string)) :=
  items ≫= fun re : string * entry =>
    data re.2 ≫= fun so : string * list occurrence =>
      (fun o : occurrence => (sha o +:+ ".json", (re.1, so.1))) <$> so.2.

Definition reachable (filtered : per_reltype (list (string * entry)))
  : list (string * (string * string)) :=
  odict.keys RELTYPES ≫= fun rt => reachable_in (pr_get filtered rt).

(** [inverted_rels.setdefault(fname, []).append(pair)] *)
Definition invert_pair (inv : inverted) (x : string * (string * string)) : inverted :=
  odict.alter (fun l => l ++ [x.2]) x.1 (odict.setdefault x.1 [] inv).

(** The pairs met under the file name [fname], in order. *)
Definition pairs_under (fname : string) (l : list (string * (string * string)))
  : list (string * string) :=
  (filter (fun x : string * (string * string) => x.1 = fname) l).*2.

(** ** Ranking of subjects *)

(** The pair a subject is sorted on. *)
Definition count_name (kv : string * list occurrence) : nat * string := (length kv.2, kv.1).

(** [<] on the items of a dictionary of subjects, through their pairs. *)
Definition item_lt (a b : string * list occurrence) : bool :=
  pair_lt (count_name a) (count_name b).

(** [a] ranks before [b]: more occurrences, or as many and a name that
    comes later. *)
Definition ranks_before (a b : string * list occurrence) : Prop :=
  length b.2 < length a.2 \/ (length b.2 = length a.2 /\ String.ltb b.1 a.1 = true).

(** ** Deciding the shape of an index *)

Global Instance wf_subjects_dec (s : subjects) : Decision (wf_subjects s).
Proof. unfold wf_subjects. apply _. Defined.

Global Instance wf_relobjs_dec (d : relobjs) : Decision (wf_relobjs d).
Proof. unfold wf_relobjs. apply _. Defined.

Global Instance wf_index_dec (idx : per_reltype relobjs) : Decision (wf_index idx).
Proof.
  refine (cast_if (decide (wf_relobjs (pr_get idx Activation) /\
                           wf_relobjs (pr_get idx Inhibition) /\
                           wf_relobjs (pr_get idx IncreaseAmount) /\
                           wf_relobjs (pr_get idx DecreaseAmount)))).
  - intros rt. destruct rt; tauto.
  - intros Hwf. pose proof (Hwf Activation). pose proof (Hwf Inhibition).
    pose proof (Hwf IncreaseAmount). pose proof (Hwf DecreaseAmount). tauto.
Defined.

(** ** Sample indexes *)

Definition sample_occurrence (doc : string) : occurrence :=
  {| pmid := JStr "21188201"; sha := doc; text := JStr "IL-12 stimulates production of TNFalpha" |}.

(** One activation with exactly a hundred occurrences. *)
Definition hundred_subjects : subjects :=
  [("IL12", replicate 100 (sample_occurrence "d3f7afa8"))].

Definition hundred : per_reltype relobjs :=
  PerReltype [("TNF-activator", hundred_subjects)] [] [] [].

(** Three subjects with ten occurrences each, and one with three. *)
Definition tied_subjects : subjects :=
  [ ("IL12", replicate 10 (sample_occurrence "d3f7afa8"));
    ("IL2", replicate 3 (sample_occurrence "fd955af6"));
    ("IL6", replicate 10 (sample_occurrence "d3f7afa8"));
    ("IFNG", replicate 10 (sample_occurrence "fd955af6")) ].

Definition tied : per_reltype relobjs :=
  PerReltype [] [] [] [("TNF-decreaser", tied_subjects)].

(** Nine subjects with one to nine occurrences under one reified relation. *)
Definition nine_subjects : subjects :=
  [ ("S1", replicate 1 (sample_occurrence "d3f7afa8"));
    ("S2", replicate 2 (sample_occurrence "d3f7afa8"));
    ("S3", replicate 3 (sample_occurrence "d3f7afa8"));
    ("S4", replicate 4 (sample_occurrence "d3f7afa8"));
    ("S5", replicate 5 (sample_occurrence "d3f7afa8"));
    ("S6", replicate 6 (sample_occurrence "d3f7afa8"));
    ("S7", replicate 7 (sample_occurrence "d3f7afa8"));
    ("S8", replicate 8 (sample_occurrence "d3f7afa8"));
    ("S9", replicate 9 (sample_occurrence "d3f7afa8")) ].

Definition nine : per_reltype relobjs :=
  PerReltype [] [] [("TNF-increaser", nine_subjects)] [].

(** ** Evidence entries and records *)

(** The tuple kept for an evidence entry: the entry is a dictionary whose
    ['pmid'] is a key of [pmid2sha]. *)
Definition resolved (metadata : Metadata) (e : json) : option evidence_tuple :=
  match e with
  | JObj d =>
      match default JNull (odict.get "pmid" d) with
      | JStr p =>
          match pmid2sha metadata !! p with
          | Some s => Some (JStr p, s, default JNull (odict.get "text" d))
          | None => None
          end
      | _ => None
      end
  | _ => None
  end.

(** An evidence entry that can be looked up: a dictionary whose ['pmid'], if
    any, is hashable. *)
Definition entry_ok (e : json) : bool :=
  match e with
  | JObj d =>
      match default JNull (odict.get "pmid" d) with
      | JList _ | JObj _ => false
      | _ => true
      end
  | _ => false
  end.

(** A record the collector can process: a dictionary with a ['type']; when
    the type is one of the four, ['subj'] and ['obj'] are dictionaries if
    they are present, and when both have a ['name'] there is a list under
    ['evidence'] whose entries can be looked up. *)
Definition well_shaped (result : json) : bool :=
  match result with
  | JObj d =>
      match odict.get "type" d with
      | None => false
      | Some ty =>
          match target_relation ty with
          | None => true
          | Some _ =>
              match odict.get "subj" d with
              | None => true
              | Some (JObj s) =>
                  match odict.get "name" s with
                  | None => true
                  | Some _ =>
                      match odict.get "obj" d with
                      | None => true
                      | Some (JObj o) =>
                          match odict.get "name" o with
                          | None => true
                          | Some _ =>
                              match odict.get "evidence" d with
                              | Some (JList es) => forallb entry_ok es
                              | _ => false
                              end
                          end
                      | Some _ => false
                      end
                  end
              | Some _ => false
              end
          end
      end
  | _ => false
  end.

(** ** Sample records *)

Definition sample_metadata : Metadata :=
  {| pmid2sha := <["21188201" := "d3f7afa8"]> (<["19325820" := "fd955af6"]> ∅) |}.

Definition sample_entry (p : string) : json :=
  JObj [("pmid", JStr p); ("text", JStr "IL-12 stimulates production of TNFalpha")].

Definition sample_record (ty sub obj : string) (entries : list json) : json :=
  JObj [ ("type", JStr ty);
         ("subj", JObj [("name", JStr sub)]);
         ("obj", JObj [("name", JStr obj)]);
         ("evidence", JList entries) ].

(** A record of a recognised type with both names and no ['evidence']. *)
Definition record_without_evidence : json :=
  JObj [ ("type", JStr "Activation");
         ("subj", JObj [("name", JStr "IL12")]);
         ("obj", JObj [("name", JStr "TNF")]) ].

(** Records of every kind the collector skips or trims. *)
Definition sample_results : list json :=
  [ sample_record "IncreaseAmount" "IL12" "TNF"
      (replicate 25 (sample_entry "21188201") ++ [sample_entry "unknown"; JObj []]);
    sample_record "Phosphorylation" "IL12" "TNF" [sample_entry "21188201"];
    sample_record "Inhibition" "IL6" "TNF" [sample_entry "unknown"];
    JObj [("type", JStr "Activation"); ("obj", JObj [("name", JStr "TNF")])];
    JObj [("type", JStr "Activation"); ("subj", JObj []); ("obj", JObj [("name", JStr "TNF")])];
    sample_record "IncreaseAmount" "IL6" "TNF" [sample_entry "19325820"] ].

(** ** Runs of the importer *)

(** The attributes that [convert] assigns. *)
Definition indexes_of (self : RelationImporter.t)
  : option (list relation_tuple) * option (per_reltype relobjs)
    * option (per_reltype (list (string * entry))) * option inverted :=
  (RelationImporter.relations self, RelationImporter.reified_rels self,
   RelationImporter.filtered_rels self, RelationImporter.inverted_rels self).

Definition run_map {A B : Type} (f : A -> B) (r : run A) : run B :=
  match r with
  | Finished a => Finished (f a)
  | Failed e => Failed e
  | NonStringName => NonStringName
  end.

(** A hundred thousand records of a type that is not collected. *)
Definition skipped_records : list json :=
  replicate (Z.to_nat collect_relations_default_n)
    (sample_record "Phosphorylation" "IL12" "TNF" [sample_entry "21188201"]).

(** ** Views of the reified index *)

(** The key a relation is reified under. *)
Definition reified_key (rel : relation_tuple) : string :=
  rel.1.2 +:+ "-" +:+ percent_s (translate_reltype_into_role rel.1.1.1).

(** The dictionaries made of the evidence of a relation. *)
Definition occurrences_of (rel : relation_tuple) : list occurrence :=
  (fun e : evidence_tuple => {| pmid := e.1.1; sha := e.1.2; text := e.2 |}) <$> rel.2.

(** [rels[reltype].get(key, {}).get(subj)], with [None] for a missing key. *)
Definition lookup_occurrences (idx : per_reltype relobjs) (rt : reltype) (key subj : string)
  : option (list occurrence) :=
  odict.get key (pr_get idx rt) ≫= odict.get subj.

(** The relations of a type that are reified under a key and a subject. *)
Definition reified_under (rt : reltype) (key subj : string) (rels : list relation_tuple)
  : list relation_tuple :=
  filter (fun rel : relation_tuple => rel.1.1.1 = rt /\ reified_key rel = key /\ rel.1.1.2 = subj)
         rels.

(** The number of occurrences held by an index. *)
Definition relobjs_size (d : relobjs) : nat :=
  sum_list ((fun ks : string * subjects => size_of (odict.values ks.2)) <$> d).

Definition index_size (idx : per_reltype relobjs) : nat :=
  sum_list ((fun rt => relobjs_size (pr_get idx rt)) <$> odict.keys RELTYPES).

(** ** Lists kept under a key *)

(** [d.setdefault(k, []).append(v)] *)
Definition odict_append {K V : Type} `{EqDecision K} (k : K) (v : V)
    (d : list (K * list V)) : list (K * list V) :=
  odict.alter (fun l => l ++ [v]) k (odict.setdefault k [] d).

(** The number of occurrences kept by a filtered index. *)
Definition kept_size (filtered : per_reltype (list (string * entry))) : nat :=
  sum_list
    ((fun rt =>
        sum_list ((fun re : string * entry => size_of (odict.values (data re.2)))
                    <$> pr_get filtered rt))
       <$> odict.keys RELTYPES).

(** The subjects met under a file name and a reified relation, in order. *)
Definition subjects_under (fname relobj : string) (l : list (string * (string * string)))
  : list string :=
  (filter (fun x : string * (string * string) => x.1 = fname /\ x.2.1 = relobj) l).*2.*2.

(** ** [index_by_fname] *)

(** The tuple is taken apart and put together again, and [fname] is computed
    and not used: the key is [sha]. *)
Definition index_by_fname (relations : list collected) : list (string * list collected) :=
  fold_left
    (fun idx rel =>
       fold_left (fun idx (e : evidence_tuple) => odict_append e.1.2 rel idx) rel.2 idx)
    relations [].

(** A relation, once for each of its evidence tuples with the given [sha]. *)
Definition listed_under (s : string) (relations : list collected) : list collected :=
  relations ≫= fun rel : collected =>
    (fun _ => rel) <$> filter (fun e : evidence_tuple => e.1.2 = s) rel.2.

(** ** [Metadata.__init__] *)

(** The tables [sha2pmid] and [pmid2sha]; the third table, [sha2year], is
    filled beside them from field 8 and is left out. *)
Record tables : Type := { sha2pmid : gmap string string; to_sha : gmap string string }.

(** The body of [for fields in self.data]; [None] is the [IndexError] of a
    row that is too short for [fields[0]], [fields[4]], [fields[5]] or
    [fields[8]]. *)
Definition load_row (t : tables) (fields : list string) : option tables :=
  sha ← fields !! 0;
  pmcid ← fields !! 4;
  pmid_field ← fields !! 5;
  year ← fields !! 8;
  Some {| sha2pmid := <[sha := pmid_field]> (sha2pmid t);
          to_sha := <[pmid_field := sha]> (to_sha t) |}.

Fixpoint load_rows (rows : list (list string)) (t : tables) : option tables :=
  match rows with
  | [] => Some t
  | fields :: rows' =>
      match load_row t fields with
      | Some t' => load_rows rows' t'
      | None => None
      end
  end.

Definition load_tables (rows : list (list string)) : option tables :=
  load_rows rows {| sha2pmid := ∅; to_sha := ∅ |}.

(** [get_pmid] and [get_sha] on the tables loaded. *)
Definition get_pmid (t : tables) (s : string) : option string := sha2pmid t !! s.

Definition metadata_of (t : tables) : Metadata := {| pmid2sha := to_sha t |}.

(** The first fields of the rows whose field 5 is [p], in order. *)
Definition shas_with_pmid (p : string) (rows : list (list string)) : list string :=
  omap (fun fields : list string =>
          if decide (fields !! 5 = Some p) then fields !! 0 else None) rows.

(** Rows of a metadata file: the header, two papers, and a paper without a
    PubMed id. *)
Definition sample_rows : list (list string) :=
  [ ["sha"; "source_x"; "title"; "doi"; "pmcid"; "pubmed_id"; "license"; "abstract";
     "publish_time"];
    ["d3f7afa8"; "PMC"; "A"; "10.1/a"; "PMC1"; "21188201"; "cc-by"; ""; "2010 Dec 27"];
    ["fd955af6"; "PMC"; "B"; "10.1/b"; "PMC2"; "19325820"; "cc-by"; ""; "2009"];
    ["0a1b2c3d"; "PMC"; "C"; "10.1/c"; "PMC3"; ""; "cc-by"; ""; "2011"] ].

(** ** [Identifiers] *)

(** The class attribute [identifiers], a counter for each tag name. *)
Definition identifiers_reset : gmap string nat := ∅.

(** [new_id]: the counter of the tag is incremented, and the identifier is
    the tag followed by the counter in decimal. *)
Definition new_id (tagname : string) (identifiers : gmap string nat)
  : string * gmap string nat :=
  let n := default 0 (identifiers !! tagname) + 1 in
  (tagname +:+ pretty n, <[tagname := n]> identifiers).

(** ** [Converter] *)

(** The dictionary handed to [Annotation]: the type is always ['Section']. *)
Record annotation : Type := {
  anno_id : string;
  anno_start : nat;
  anno_end : nat;
  section_type : string
}.

(** What a conversion has built so far: the offset [p], the text written to
    the [StringIO], the annotations added to the view in the order they were
    added, and the counters of [Identifiers]. *)
Record converter : Type := {
  conv_p : nat;
  conv_text : string;
  conv_view : list annotation;
  conv_identifiers : gmap string nat
}.

(** [_setup] *)
Definition setup : converter :=
  {| conv_p := 0; conv_text := ""; conv_view := []; conv_identifiers := identifiers_reset |}.

(** The two line feeds added to every paragraph. *)
Definition line_feeds : string :=
  String (Ascii.ascii_of_nat 10) (String (Ascii.ascii_of_nat 10) EmptyString).

(** [_add_docelement_anno] *)
Definition add_docelement_anno (docelement_type : string) (p1 p2 : nat) (c : converter)
  : converter :=
  let (id, identifiers) := new_id "de" (conv_identifiers c) in
  {| conv_p := conv_p c;
     conv_text := conv_text c;
     conv_view := conv_view c ++ [{| anno_id := id; anno_start := p1; anno_end := p2;
                                     section_type := docelement_type |}];
     conv_identifiers := identifiers |}.

(** [text_str += "\n\n"; self.p += len(text_str); self.text.write(text_str)] *)
Definition write_paragraph (c : converter) (text_str : string) : converter :=
  let text_str := text_str +:+ line_feeds in
  {| conv_p := conv_p c + String.length text_str;
     conv_text := conv_text c +:+ text_str;
     conv_view := conv_view c;
     conv_identifiers := conv_identifiers c |}.

(** [_add_abstract] *)
Definition add_abstract (abstract : list string) (c : converter) : converter :=
  let abstract_p0 := conv_p c in
  let c := fold_left write_paragraph abstract c in
  add_docelement_anno "Abstract" abstract_p0 (conv_p c) c.

(** The body of the loop of [_add_sections], on [section_p0] and the
    converter; the header only feeds [previous_header], which is not used. *)
Definition add_section (state : nat * converter) (section : string * string)
  : nat * converter :=
  let c := write_paragraph state.2 section.2 in
  let c := add_docelement_anno "Paragraph" state.1 (conv_p c) c in
  (conv_p c, c).

(** [_add_sections] *)
Definition add_sections (body_text : list (string * string)) (c : converter) : converter :=
  (fold_left add_section body_text (conv_p c, c)).2.

(** [convert] for a complete document, up to [_finish]. *)
Definition convert_document (abstract : list string) (body_text : list (string * string))
  : converter :=
  add_sections body_text (add_abstract abstract setup).

(** The text of paragraphs, each with its line feeds. *)
Definition paragraphs_text (paragraphs : list string) : string :=
  fold_right (fun t s => t +:+ line_feeds +:+ s) "" paragraphs.

(** What an annotation spans in a text. *)
Definition span (a : annotation) (s : string) : string :=
  String.substring (anno_start a) (anno_end a - anno_start a) s.

(** The offset is the length of the text, and the counter of the tag [de]
    is the number of annotations. *)
Definition consistent (c : converter) : Prop :=
  conv_p c = String.length (conv_text c) /\
  default 0 (conv_identifiers c !! "de") = length (conv_view c).

(** The identifiers returned by a sequence of calls of [new_id]. *)
Fixpoint new_ids (tagnames : list string) (identifiers : gmap string nat) : list string :=
  match tagnames with
  | [] => []
  | tagname :: rest =>
      let (id, identifiers') := new_id tagname identifiers in
      id :: new_ids rest identifiers'
  end.

(** The number of calls for a tag among the first [i] calls. *)
Definition calls_before (tagname : string) (i : nat) (tagnames : list string) : nat :=
  length (filter (fun t => t = tagname) (take i tagnames)).

(** ** [Document._collect_relations] of [create_index.py] *)

(** [Annotations.RELATIONS] *)
Definition RELATIONS : list string :=
  [ "TNF-activator"; "CD4-activator"; "IFNB1-activator"; "apoptotic process-activator";
    "NFkappaB-activator"; "immune response-activator"; "cell death-activator 570";
    "CD8-activator"; "Interferon-activator"; "inflammatory response-activator";
    "autophagy-activator"; "endocytosis-activator"; "IL10-activator"; "IFNG-activator";
    "innate immune response-activator"; "IRF3-activator"; "Interferon-inhibitor";
    "replication-inhibitor"; "EIF2AK2-inhibitor"; "apoptotic process-inhibitor";
    "TNF-inhibitor"; "NFkappaB-inhibitor"; "translation-inhibitor"; "autophagy-inhibitor";
    "IFNB1-inhibitor"; "cell death-inhibitor"; "inflammatory response-inhibitor";
    "cell population proliferation-inhibitor" ].

(** [self.relations] as [Annotations.__init__] leaves it. *)
Definition annotations_relations : list (string * list string) :=
  (fun rel => (rel, [])) <$> RELATIONS.

(** The body of [for subj in subjs]. *)
Definition collect_subject (relobj : string) (relations : list (string * list string))
    (subj : string) : list (string * list string) :=
  match odict.get relobj relations with
  | Some _ => odict.alter (fun l => l ++ [subj]) relobj relations
  | None => relations
  end.

(** The loops of [_collect_relations] over the items of
    [self.har.metadata['relations']]. *)
Definition collect_document_relations (har_relations : list (string * list string))
    (relations : list (string * list string)) : list (string * list string) :=
  fold_left
    (fun relations (item : string * list string) =>
       fold_left (collect_subject item.1) item.2 relations)
    har_relations relations.

(** ** The relation of a record *)

(** What a record stands for: its type when that is one of the four, the
    names of its subject and its object, and the tuples of those of its
    evidence entries that resolve; nothing when the type is another one, when
    a name is missing, or when no entry resolves. *)
Definition relation_of (metadata : Metadata) (result : json) : option collected :=
  match getitem result "type" with
  | Ok reltype =>
      match target_relation reltype with
      | Some rt =>
          match subject_and_object result with
          | Ok (sub, obj) =>
              match getitem result "evidence" ≫= iterate with
              | Ok entries =>
                  match omap (resolved metadata) entries with
                  | [] => None
                  | evidence => Some (rt, sub, obj, evidence)
                  end
              | Raise _ => None
              end
          | Raise _ => None
          end
      | None => None
      end
  | Raise _ => None
  end.

(** ** [reify_relations] on names of any kind *)

(** For a subject that is no string the dictionary of subjects compares keys
    the way Python does, and an object that is no string is formatted by
    ["%s"]: both are parameters here, [same_key] and [percent_s_of], with
    [hashable] telling the values that can be keys at all. *)

(** [d.setdefault(k, v0)] followed by an update of the value it returned:
    the value found under the first key that is the same as [k], or [v0],
    stored under [k] at the end. *)
Fixpoint setdefault_then {V : Type} (same_key : json -> json -> bool) (f : V -> V) (v0 : V)
    (k : json) (d : list (json * V)) : list (json * V) :=
  match d with
  | [] => [(k, f v0)]
  | (k', v) :: d' =>
      if same_key k' k then (k', f v) :: d'
      else (k', v) :: setdefault_then same_key f v0 k d'
  end.

(** The body of the loop of [reify_relations]; an unhashable subject raises
    [TypeError] at [setdefault]. *)
Definition reify_collected_relation (percent_s_of : json -> string)
    (hashable : json -> bool) (same_key : json -> json -> bool)
    (rels : per_reltype (list (string * list (json * list occurrence))))
    (rel : collected)
  : outcome (per_reltype (list (string * list (json * list occurrence)))) :=
  let '(rel0, rel1, rel2, rel3) := rel in
  let reified_rel := percent_s_of rel2 +:+ "-" +:+ percent_s (translate_reltype_into_role rel0) in
  let rels := pr_alter (odict.setdefault reified_rel []) rel0 rels in
  let ds := (fun e : evidence_tuple => {| pmid := e.1.1; sha := e.1.2; text := e.2 |}) <$> rel3 in
  if hashable rel1
  then Ok (pr_alter
             (odict.alter (setdefault_then same_key (fun l => l ++ ds) [] rel1) reified_rel)
             rel0 rels)
  else Raise TypeError.

Definition reify_collected (percent_s_of : json -> string)
    (hashable : json -> bool) (same_key : json -> json -> bool)
    (relations : list collected)
  : outcome (per_reltype (list (string * list (json * list occurrence)))) :=
  for_each (reify_collected_relation percent_s_of hashable same_key) relations (pr_init []).

(** A dictionary of subjects that are strings, as one of subjects of any
    kind. *)
Definition any_subjects (subjs : subjects) : list (json * list occurrence) :=
  (fun kv : string * list occurrence => (JStr kv.1, kv.2)) <$> subjs.

Definition any_index (idx : per_reltype relobjs)
  : per_reltype (list (string * list (json * list occurrence))) :=
  PerReltype
    ((fun ks : string * subjects => (ks.1, any_subjects ks.2)) <$> at_Activation idx)
    ((fun ks : string * subjects => (ks.1, any_subjects ks.2)) <$> at_Inhibition idx)
    ((fun ks : string * subjects => (ks.1, any_subjects ks.2)) <$> at_IncreaseAmount idx)
    ((fun ks : string * subjects => (ks.1, any_subjects ks.2)) <$> at_DecreaseAmount idx).

(** * Properties *)

(** ** Dictionaries *)

Module odict_facts.
Section facts.
Context {K V : Type} `{EqDecision K}.
Implicit Types (d : list (K * V)) (k : K) (v : V).

Lemma get_None k d : odict.get k d = None <-> k ∉ odict.keys d.
Proof.
  unfold odict.keys. induction d as [|[k' v'] d IH]; simpl.
  - split; [intros _; apply not_elem_of_nil | done].
  - rewrite not_elem_of_cons. destruct (decide (k' = k)) as [->|Hne].
    + split; [done | intros [? _]; done].
    + rewrite IH. split; [intros ?; split; [congruence | done] | intros [_ ?]; done].
Qed.

Lemma get_Some_elem k v d : odict.get k d = Some v -> (k, v) ∈ d.
Proof.
  induction d as [|[k' v'] d IH]; simpl; [done|].
  destruct (decide (k' = k)) as [->|Hne].
  - intros [= ->]. apply list_elem_of_here.
  - intros Hg. apply list_elem_of_further. auto.
Qed.

Lemma elem_keys k v d : (k, v) ∈ d -> k ∈ odict.keys d.
Proof. intros Hin. unfold odict.keys. apply (list_elem_of_fmap_2 fst) in Hin. done. Qed.

Lemma elem_get k v d : NoDup (odict.keys d) -> (k, v) ∈ d -> odict.get k d = Some v.
Proof.
  unfold odict.keys. induction d as [|[k' v'] d IH]; simpl.
  - intros _ Hin. by apply elem_of_nil in Hin.
  - intros Hnd Hin. apply NoDup_cons in Hnd as [Hk' Hnd].
    apply elem_of_cons in Hin as [[= -> ->]|Hin].
    + by rewrite decide_True.
    + rewrite decide_False; [by apply IH|].
      intros ->. apply Hk'. by apply (elem_keys _ v).
Qed.

Lemma get_is_Some k d : is_Some (odict.get k d) <-> k ∈ odict.keys d.
Proof.
  destruct (odict.get k d) eqn:Hg.
  - split; [intros _ | by eauto]. eapply elem_keys, get_Some_elem, Hg.
  - split; [intros [? ?]; done|]. intros Hin. by apply get_None in Hg.
Qed.

Lemma setdefault_fresh k v d :
  k ∉ odict.keys d -> odict.setdefault k v d = d ++ [(k, v)].
Proof. intros Hk. unfold odict.setdefault. apply get_None in Hk. by rewrite Hk. Qed.

Lemma setdefault_present k v d :
  k ∈ odict.keys d -> odict.setdefault k v d = d.
Proof.
  intros Hk. unfold odict.setdefault. apply get_is_Some in Hk as [x Hx]. by rewrite Hx.
Qed.

Lemma keys_alter f k d : odict.keys (odict.alter f k d) = odict.keys d.
Proof.
  unfold odict.keys. induction d as [|[k' v'] d IH]; simpl; [done|].
  destruct (decide (k' = k)); simpl; [done | by f_equal].
Qed.

Lemma alter_absent f k d : k ∉ odict.keys d -> odict.alter f k d = d.
Proof.
  unfold odict.keys. induction d as [|[k' v'] d IH]; simpl; [done|].
  rewrite not_elem_of_cons. intros [Hne Hk].
  rewrite decide_False; [|congruence]. by rewrite IH.
Qed.

Lemma alter_app_fresh f k v d :
  k ∉ odict.keys d -> odict.alter f k (d ++ [(k, v)]) = d ++ [(k, f v)].
Proof.
  unfold odict.keys. induction d as [|[k' v'] d IH]; simpl.
  - intros _. by rewrite decide_True.
  - rewrite not_elem_of_cons. intros [Hne Hk].
    rewrite decide_False; [|congruence]. by rewrite IH.
Qed.

Lemma alter_compose f g k d :
  odict.alter f k (odict.alter g k d) = odict.alter (fun v => f (g v)) k d.
Proof.
  induction d as [|[k' v'] d IH]; simpl; [done|].
  destruct (decide (k' = k)) as [->|Hne]; simpl.
  - by rewrite decide_True.
  - rewrite decide_False; [|done]. by rewrite IH.
Qed.

Lemma alter_ext f g k d :
  (forall v, f v = g v) -> odict.alter f k d = odict.alter g k d.
Proof.
  intros Hfg. induction d as [|[k' v'] d IH]; simpl; [done|].
  destruct (decide (k' = k)); [by rewrite Hfg | by rewrite IH].
Qed.

Lemma keys_setdefault k v d :
  odict.keys (odict.setdefault k v d) =
  if decide (k ∈ odict.keys d) then odict.keys d else odict.keys d ++ [k].
Proof.
  destruct (decide (k ∈ odict.keys d)) as [Hin|Hnin].
  - by rewrite setdefault_present.
  - rewrite setdefault_fresh; [|done]. unfold odict.keys. by rewrite fmap_app.
Qed.

Lemma NoDup_keys_setdefault k v d :
  NoDup (odict.keys d) -> NoDup (odict.keys (odict.setdefault k v d)).
Proof.
  intros Hnd. rewrite keys_setdefault. destruct (decide (k ∈ odict.keys d)); [done|].
  apply NoDup_app. split; [done|]. split.
  - intros x Hx Hx'. apply list_elem_of_singleton in Hx'. by subst.
  - apply NoDup_singleton.
Qed.

(** [d.setdefault(k, v)] followed by an update of [d[k]]. *)
Lemma alter_setdefault f k v d :
  odict.alter f k (odict.setdefault k v d) =
  if decide (k ∈ odict.keys d) then odict.alter f k d else d ++ [(k, f v)].
Proof.
  destruct (decide (k ∈ odict.keys d)) as [Hin|Hnin].
  - by rewrite setdefault_present.
  - rewrite setdefault_fresh; [|done]. by apply alter_app_fresh.
Qed.

Lemma elem_alter f k k' v' d :
  (k', v') ∈ odict.alter f k d ->
  (k', v') ∈ d \/ (k' = k /\ exists v, (k, v) ∈ d /\ v' = f v).
Proof.
  induction d as [|[k0 v0] d IH]; simpl; [by left|].
  destruct (decide (k0 = k)) as [->|Hne].
  - intros Hin. apply elem_of_cons in Hin as [[= -> ->]|Hin].
    + right. split; [done|]. exists v0. split; [apply list_elem_of_here | done].
    + left. by apply list_elem_of_further.
  - intros Hin. apply elem_of_cons in Hin as [[= -> ->]|Hin].
    + left. apply list_elem_of_here.
    + destruct (IH Hin) as [?|(-> & v & ? & ->)].
      * left. by apply list_elem_of_further.
      * right. split; [done|]. exists v. split; [by apply list_elem_of_further | done].
Qed.
End facts.
End odict_facts.

(** ** Loops *)

Lemma fold_left_invariant {A S : Type} (P : S -> Prop) (f : S -> A -> S) (l : list A) (s : S) :
  P s -> (forall s' x, x ∈ l -> P s' -> P (f s' x)) -> P (fold_left f l s).
Proof.
  revert s. induction l as [|x l IH]; simpl; intros s Hs Hstep; [done|].
  apply IH.
  - apply Hstep; [apply list_elem_of_here | done].
  - intros s' y Hy. apply Hstep. by apply list_elem_of_further.
Qed.

Lemma fold_left_ext {A S : Type} (f g : S -> A -> S) (l : list A) (s : S) :
  (forall s' x, f s' x = g s' x) -> fold_left f l s = fold_left g l s.
Proof.
  intros Hfg. revert s. induction l as [|x l IH]; simpl; intros s; [done|].
  by rewrite Hfg, IH.
Qed.

Lemma for_each_app {A S : Type} (body : S -> A -> outcome S) (l1 l2 : list A) (s : S) :
  for_each body (l1 ++ l2) s =
  match for_each body l1 s with
  | Ok s' => for_each body l2 s'
  | Raise e => Raise e
  end.
Proof.
  revert s. induction l1 as [|x l1 IH]; simpl; intros s; [done|].
  destruct (body s x); [apply IH | done].
Qed.

Lemma for_each_invariant {A S : Type} (P : S -> Prop) (body : S -> A -> outcome S)
    (l : list A) (s s' : S) :
  P s ->
  (forall s1 s2 x, x ∈ l -> P s1 -> body s1 x = Ok s2 -> P s2) ->
  for_each body l s = Ok s' -> P s'.
Proof.
  revert s. induction l as [|x l IH]; simpl; intros s Hs Hstep.
  - by intros [= <-].
  - destruct (body s x) as [s1|e] eqn:Hb; [|done].
    apply IH.
    + eapply Hstep; [apply list_elem_of_here | done | done].
    + intros s2 s3 y Hy. apply Hstep. by apply list_elem_of_further.
Qed.

(** ** Dictionaries keyed by the relation types *)

Lemma pr_get_alter {A : Type} (f : A -> A) (rt rt' : reltype) (d : per_reltype A) :
  pr_get (pr_alter f rt d) rt' = if decide (rt = rt') then f (pr_get d rt') else pr_get d rt'.
Proof. by destruct rt, rt'. Qed.

Lemma pr_alter_compose {A : Type} (f g : A -> A) (rt : reltype) (d : per_reltype A) :
  pr_alter f rt (pr_alter g rt d) = pr_alter (fun x => f (g x)) rt d.
Proof. by destruct rt. Qed.

Lemma pr_alter_ext {A : Type} (f g : A -> A) (rt : reltype) (d : per_reltype A) :
  f (pr_get d rt) = g (pr_get d rt) -> pr_alter f rt d = pr_alter g rt d.
Proof. destruct rt; simpl; intros ->; done. Qed.

Lemma pr_alter_id {A : Type} (rt : reltype) (d : per_reltype A) :
  pr_alter (fun x => x) rt d = d.
Proof. by destruct rt, d. Qed.

Lemma pr_get_init {A : Type} (a : A) (rt : reltype) : pr_get (pr_init a) rt = a.
Proof. by destruct rt. Qed.

Lemma pr_ext {A : Type} (d d' : per_reltype A) :
  (forall rt, pr_get d rt = pr_get d' rt) -> d = d'.
Proof.
  intros Heq. destruct d, d'.
  pose proof (Heq Activation). pose proof (Heq Inhibition).
  pose proof (Heq IncreaseAmount). pose proof (Heq DecreaseAmount).
  simpl in *. by subst.
Qed.

Lemma pr_keys_all {A : Type} (d : per_reltype A) (rt : reltype) : rt ∈ pr_keys d.
Proof. unfold pr_keys, odict.keys. simpl. destruct rt; set_solver. Qed.

(** ** The reified index is a dictionary of dictionaries *)

Section values.
Context {K V : Type} `{EqDecision K}.

Lemma Forall_values_alter (P : V -> Prop) (f : V -> V) (k : K) (d : list (K * V)) :
  Forall (fun kv => P kv.2) d -> (forall v, P v -> P (f v)) ->
  Forall (fun kv => P kv.2) (odict.alter f k d).
Proof.
  intros Hd Hf. induction Hd as [|[k' v'] d Hv Hd IH]; simpl; [constructor|].
  destruct (decide (k' = k)); constructor; simpl in *; auto.
Qed.

Lemma Forall_values_upsert (P : V -> Prop) (f : V -> V) (k : K) (v0 : V) (d : list (K * V)) :
  Forall (fun kv => P kv.2) d -> (forall v, P v -> P (f v)) -> P (f v0) ->
  Forall (fun kv => P kv.2) (odict.alter f k (odict.setdefault k v0 d)).
Proof.
  intros Hd Hf H0. rewrite odict_facts.alter_setdefault.
  destruct (decide (k ∈ odict.keys d)).
  - by apply Forall_values_alter.
  - apply Forall_app. split; [done|]. by constructor.
Qed.

Lemma NoDup_keys_upsert (f : V -> V) (k : K) (v0 : V) (d : list (K * V)) :
  NoDup (odict.keys d) -> NoDup (odict.keys (odict.alter f k (odict.setdefault k v0 d))).
Proof.
  intros Hd. rewrite odict_facts.keys_alter. by apply odict_facts.NoDup_keys_setdefault.
Qed.
End values.

Lemma reify_relation_alter (rels : per_reltype relobjs) (rel : relation_tuple) :
  reify_relation rels rel = pr_alter (reify_into rel) rel.1.1.1 rels.
Proof.
  destruct rel as [[[rel0 rel1] rel2] rel3]. unfold reify_relation, reify_into. simpl.
  by rewrite pr_alter_compose.
Qed.

Lemma reify_into_wf (rel : relation_tuple) (d : relobjs) : wf_relobjs d -> wf_relobjs (reify_into rel d).
Proof.
  intros [Hk Hs]. unfold reify_into. split.
  - by apply NoDup_keys_upsert.
  - apply (Forall_values_upsert wf_subjects); [done| |].
    + intros subjs Hsubjs. by apply NoDup_keys_upsert.
    + apply NoDup_keys_upsert. constructor.
Qed.

Lemma reify_into_occupied (rel : relation_tuple) (d : relobjs) :
  rel.2 <> [] ->
  Forall (fun ks : string * subjects => Forall (fun kv => kv.2 <> []) ks.2) d ->
  Forall (fun ks : string * subjects => Forall (fun kv => kv.2 <> []) ks.2) (reify_into rel d).
Proof.
  intros Hev Hd. unfold reify_into.
  assert (Hds : forall l : list occurrence,
    l ++ ((fun e : evidence_tuple => {| pmid := e.1.1; sha := e.1.2; text := e.2 |}) <$> rel.2) <> []).
  { intros l Hl. apply app_eq_nil in Hl as [_ Hl]. apply fmap_nil_inv in Hl. done. }
  apply (Forall_values_upsert (fun subjs : subjects => Forall (fun kv => kv.2 <> []) subjs)); [done| |].
  - intros subjs Hsubjs.
    apply (Forall_values_upsert (fun l : list occurrence => l <> [])); [done | | apply Hds].
    intros l _. apply Hds.
  - apply (Forall_values_upsert (fun l : list occurrence => l <> [])); [constructor | | apply Hds].
    intros l _. apply Hds.
Qed.

Lemma reify_relations_wf (relations : list relation_tuple) : wf_index (reify_relations relations).
Proof.
  unfold reify_relations. apply fold_left_invariant.
  - intros rt. rewrite pr_get_init. split; constructor.
  - intros idx rel _ Hidx rt. rewrite reify_relation_alter, pr_get_alter.
    destruct (decide (rel.1.1.1 = rt)); [|done]. by apply reify_into_wf.
Qed.

Lemma reify_relations_occupied (relations : list relation_tuple) :
  Forall (fun rel : relation_tuple => rel.2 <> []) relations -> occupied (reify_relations relations).
Proof.
  intros Hrels. unfold reify_relations. apply fold_left_invariant.
  - intros rt. rewrite pr_get_init. constructor.
  - intros idx rel Hrel Hidx rt. rewrite reify_relation_alter, pr_get_alter.
    destruct (decide (rel.1.1.1 = rt)); [|done].
    apply reify_into_occupied; [|done].
    rewrite Forall_forall in Hrels. by apply Hrels.
Qed.

(** ** The order on strings *)

Lemma ascii_compare_refl (c : Ascii.ascii) : Ascii.compare c c = Eq.
Proof. unfold Ascii.compare. apply N.compare_refl. Qed.

Lemma ascii_compare_lt_trans (a b c : Ascii.ascii) :
  Ascii.compare a b = Lt -> Ascii.compare b c = Lt -> Ascii.compare a c = Lt.
Proof. unfold Ascii.compare. rewrite !N.compare_lt_iff. apply N.lt_trans. Qed.

Lemma string_compare_refl (s : string) : String.compare s s = Eq.
Proof. induction s as [|c s IH]; simpl; [done|]. by rewrite ascii_compare_refl. Qed.

Lemma string_compare_lt_trans (a b c : string) :
  String.compare a b = Lt -> String.compare b c = Lt -> String.compare a c = Lt.
Proof.
  revert b c. induction a as [|x a IH]; intros [|y b] [|z c]; simpl; try done.
  destruct (Ascii.compare x y) eqn:Hxy; [|clear IH|done].
  - apply Ascii.compare_eq_iff in Hxy as ->.
    destruct (Ascii.compare y z) eqn:Hyz; [apply IH | done | done].
  - intros _. destruct (Ascii.compare y z) eqn:Hyz; [|by rewrite (ascii_compare_lt_trans x y z)|done].
    apply Ascii.compare_eq_iff in Hyz as <-. by rewrite Hxy.
Qed.

Lemma string_ltb_compare (a b : string) : String.ltb a b = true <-> String.compare a b = Lt.
Proof. unfold String.ltb. destruct (String.compare a b); split; done. Qed.

Lemma string_ltb_irrefl (a : string) : String.ltb a a = false.
Proof. unfold String.ltb. by rewrite string_compare_refl. Qed.

Lemma string_ltb_asym (a b : string) : String.ltb a b = true -> String.ltb b a = false.
Proof.
  unfold String.ltb. rewrite (String.compare_antisym a b).
  by destruct (String.compare b a).
Qed.

Lemma string_ltb_trans (a b c : string) :
  String.ltb a b = true -> String.ltb b c = true -> String.ltb a c = true.
Proof. rewrite !string_ltb_compare. apply string_compare_lt_trans. Qed.

Lemma string_ltb_total (a b : string) :
  String.ltb a b = false -> String.ltb b a = false -> a = b.
Proof.
  unfold String.ltb. rewrite (String.compare_antisym a b).
  destruct (String.compare b a) eqn:Hc; simpl; try done.
  intros _ _. symmetry. by apply String.compare_eq_iff.
Qed.

(** ** The order on the pairs [(count, name)] *)

Lemma pair_lt_spec (a b : nat * string) :
  pair_lt a b = true <-> a.1 < b.1 \/ (a.1 = b.1 /\ String.ltb a.2 b.2 = true).
Proof.
  unfold pair_lt. destruct (decide (a.1 = b.1)) as [Heq|Hne].
  - split; [by right | intros [?|[_ ?]]; [lia | done]].
  - rewrite Nat.ltb_lt. split; [by left | intros [?|[? _]]; done].
Qed.

Lemma pair_lt_asym (a b : nat * string) : pair_lt a b = true -> pair_lt b a = false.
Proof.
  intros Hab. apply not_true_is_false. intros Hba.
  apply pair_lt_spec in Hab, Hba.
  destruct Hab as [?|[? Hab]], Hba as [?|[? Hba]]; try lia.
  apply string_ltb_asym in Hab. congruence.
Qed.

Lemma pair_lt_trans (a b c : nat * string) :
  pair_lt a b = true -> pair_lt b c = true -> pair_lt a c = true.
Proof.
  rewrite !pair_lt_spec. intros [?|[? Hab]] [?|[? Hbc]]; try (left; lia).
  right. split; [lia|]. by apply (string_ltb_trans _ b.2).
Qed.

Lemma pair_lt_total (a b : nat * string) :
  pair_lt a b = false -> pair_lt b a = false -> a = b.
Proof.
  unfold pair_lt. destruct a as [n k], b as [m j]. simpl.
  destruct (decide (n = m)) as [->|Hne].
  - rewrite decide_True by done. intros ? ?. f_equal. by apply string_ltb_total.
  - rewrite decide_False by done. rewrite !Nat.ltb_ge. lia.
Qed.

Lemma pair_le_trans (a b c : nat * string) :
  pair_lt b a = false -> pair_lt c b = false -> pair_lt c a = false.
Proof.
  intros Hba Hcb. apply not_true_is_false. intros Hca.
  destruct (pair_lt a b) eqn:Hab.
  - pose proof (pair_lt_trans _ _ _ Hca Hab). congruence.
  - pose proof (pair_lt_total _ _ Hab Hba). subst. congruence.
Qed.

(** ** [sorted] sorts *)

Section sorted_facts.
Context {A : Type} (lt : A -> A -> bool).

Lemma insert_sorted_Permutation (x : A) (l : list A) : insert_sorted lt x l ≡ₚ x :: l.
Proof.
  induction l as [|y l IH]; simpl; [done|].
  destruct (lt y x); [|done]. rewrite IH. apply Permutation_swap.
Qed.

Lemma sorted_Permutation (l : list A) : sorted lt l ≡ₚ l.
Proof.
  induction l as [|x l IH]; simpl; [done|].
  by rewrite insert_sorted_Permutation, IH.
Qed.

Hypothesis lt_asym : forall a b, lt a b = true -> lt b a = false.
Hypothesis le_trans : forall a b c, lt b a = false -> lt c b = false -> lt c a = false.

Lemma insert_sorted_StronglySorted (x : A) (l : list A) :
  StronglySorted (not_after lt) l -> StronglySorted (not_after lt) (insert_sorted lt x l).
Proof.
  induction 1 as [|y l Hl IH Hy]; simpl; [repeat constructor|].
  destruct (lt y x) eqn:Hyx.
  - constructor; [done|]. rewrite insert_sorted_Permutation.
    constructor; [|done]. by apply lt_asym.
  - constructor; [by constructor|]. constructor; [done|].
    eapply Forall_impl; [exact Hy|]. intros z Hz. unfold not_after in *. eauto.
Qed.

Lemma sorted_StronglySorted (l : list A) : StronglySorted (not_after lt) (sorted lt l).
Proof.
  induction l as [|x l IH]; simpl; [constructor|].
  by apply insert_sorted_StronglySorted.
Qed.
End sorted_facts.

Lemma sorted_fmap {A B : Type} (f : A -> B) (lt : A -> A -> bool) (lt' : B -> B -> bool)
    (l : list A) :
  (forall a b, lt a b = lt' (f a) (f b)) -> f <$> sorted lt l = sorted lt' (f <$> l).
Proof.
  intros Hlt. induction l as [|x l IH]; csimpl; [done|].
  rewrite <- IH. generalize (sorted lt l). intros k.
  induction k as [|y k IHk]; csimpl; [done|].
  rewrite <- Hlt. destruct (lt y x); csimpl; [by rewrite IHk | done].
Qed.

Lemma StronglySorted_reverse {A : Type} (R : relation A) (l : list A) :
  StronglySorted R l -> StronglySorted (flip R) (reverse l).
Proof.
  induction 1 as [|x l Hl IH Hx]; [constructor|].
  rewrite reverse_cons. apply StronglySorted_app_2; [|done|repeat constructor].
  intros a b Ha Hb. apply list_elem_of_singleton in Hb as ->.
  rewrite elem_of_reverse in Ha. rewrite Forall_forall in Hx. unfold flip. by apply Hx.
Qed.

Lemma StronglySorted_take {A : Type} (R : relation A) (n : nat) (l : list A) :
  StronglySorted R l -> StronglySorted R (take n l).
Proof.
  intros Hl. rewrite <- (take_drop n l) in Hl. by apply StronglySorted_app_1_l in Hl.
Qed.

(** Sorted without repetition is strictly sorted. *)
Lemma StronglySorted_NoDup {A : Type} (R : relation A) (l : list A) :
  StronglySorted R l -> NoDup l -> StronglySorted (fun a b => R a b /\ a <> b) l.
Proof.
  induction 1 as [|x l Hl IH Hx]; intros Hnd; [constructor|].
  apply NoDup_cons in Hnd as [Hxl Hnd]. constructor; [by apply IH|].
  rewrite Forall_forall in Hx |- *. intros y Hy. split; [by apply Hx|].
  intros ->. done.
Qed.

(** ** Loops that update one place *)

Lemma alter_id {K V : Type} `{EqDecision K} (k : K) (d : list (K * V)) :
  odict.alter (fun v => v) k d = d.
Proof.
  induction d as [|[k' v'] d IH]; simpl; [done|].
  destruct (decide (k' = k)); [done | by rewrite IH].
Qed.

Lemma fold_left_alter {K V X : Type} `{EqDecision K} (g : X -> V -> V) (k : K)
    (l : list X) (d : list (K * V)) :
  fold_left (fun d x => odict.alter (g x) k d) l d =
  odict.alter (fun v => fold_left (fun v x => g x v) l v) k d.
Proof.
  revert d. induction l as [|x l IH]; simpl; intros d.
  - by rewrite alter_id.
  - by rewrite IH, odict_facts.alter_compose.
Qed.

Lemma fold_left_pr_alter {A X : Type} (g : X -> A -> A) (rt : reltype)
    (l : list X) (d : per_reltype A) :
  fold_left (fun d x => pr_alter (g x) rt d) l d =
  pr_alter (fun a => fold_left (fun a x => g x a) l a) rt d.
Proof.
  revert d. induction l as [|x l IH]; simpl; intros d.
  - by rewrite pr_alter_id.
  - by rewrite IH, pr_alter_compose.
Qed.

(** ** The filter, one relation type at a time *)

Lemma subjects_sorted_names (subjs : subjects) :
  (fun t : nat * string * list occurrence => t.1.2) <$> subjects_sorted subjs
  ≡ₚ odict.keys subjs.
Proof.
  unfold subjects_sorted. rewrite fmap_reverse, reverse_Permutation.
  rewrite sorted_Permutation. rewrite <- list_fmap_compose. done.
Qed.

Lemma subjects_sorted_NoDup (subjs : subjects) (n : nat) :
  wf_subjects subjs ->
  NoDup ((fun t : nat * string * list occurrence => t.1.2) <$> take n (subjects_sorted subjs)).
Proof.
  intros Hwf. rewrite fmap_take. eapply sublist_NoDup; [|apply sublist_take].
  by rewrite subjects_sorted_names.
Qed.

(** The loop that fills ['data']. *)
Lemma extend_data_loop (l : list (nat * string * list occurrence)) (e : entry) :
  NoDup (odict.keys (data e) ++ ((fun t : nat * string * list occurrence => t.1.2) <$> l)) ->
  fold_left (fun e t => extend_data t.1.2 t.2 e) l e =
  {| size := size e;
     data := data e ++ ((fun t : nat * string * list occurrence => (t.1.2, t.2)) <$> l) |}.
Proof.
  revert e. induction l as [|[[i subj] val] l IH]; csimpl; intros e Hnd.
  - rewrite app_nil_r. by destruct e.
  - assert (Hfresh : subj ∉ odict.keys (data e)).
    { apply NoDup_app in Hnd as (_ & Hdisj & _). intros Hin.
      apply (Hdisj _ Hin). apply list_elem_of_here. }
    rewrite IH.
    + simpl. rewrite odict_facts.alter_setdefault, decide_False by done.
      simpl. by rewrite <- app_assoc.
    + simpl. rewrite odict_facts.alter_setdefault, decide_False by done.
      unfold odict.keys in *. rewrite fmap_app. csimpl.
      rewrite <- app_assoc. done.
Qed.

Lemma filter_relobj_alter (rt : reltype) (filtered : per_reltype (list (string * entry)))
    (item : string * subjects) :
  filter_relobj rt filtered item = pr_alter (fun d => filter_into rt d item) rt filtered.
Proof.
  destruct item as [rel_obj subjs]. unfold filter_relobj, filter_into. simpl.
  destruct (is_big (odict.values subjs) rt); simpl.
  - rewrite (fold_left_ext _
      (fun d t => pr_alter (odict.alter (extend_data t.1.2 t.2) rel_obj) rt d)).
    + by rewrite (fold_left_pr_alter
        (fun t => odict.alter (extend_data t.1.2 t.2) rel_obj)), pr_alter_compose.
    + by intros d [[i subj] val].
  - by rewrite pr_alter_id.
Qed.

Lemma filter_relobjs_loop (rt : reltype) (items : relobjs)
    (filtered : per_reltype (list (string * entry))) :
  fold_left (filter_relobj rt) items filtered =
  pr_alter (fun d => fold_left (filter_into rt) items d) rt filtered.
Proof.
  rewrite (fold_left_ext _ (fun d item => pr_alter (fun a => filter_into rt a item) rt d)).
  - by rewrite (fold_left_pr_alter (fun item a => filter_into rt a item)).
  - intros d item. apply filter_relobj_alter.
Qed.

Lemma filter_into_big (rt : reltype) (d : list (string * entry)) (item : string * subjects) :
  item.1 ∉ odict.keys d -> wf_subjects item.2 ->
  filter_into rt d item =
  if is_big (odict.values item.2) rt then d ++ [(item.1, filtered_entry item.2)] else d.
Proof.
  intros Hfresh Hwf. unfold filter_into.
  destruct (is_big (odict.values item.2) rt); simpl; [|done].
  rewrite (fold_left_alter (fun t => extend_data t.1.2 t.2)).
  rewrite odict_facts.alter_setdefault, decide_False by done.
  rewrite extend_data_loop; [done|]. simpl. by apply subjects_sorted_NoDup.
Qed.

Lemma filter_into_loop (rt : reltype) (items : relobjs) (d : list (string * entry)) :
  NoDup (odict.keys d ++ odict.keys items) -> Forall (fun ks => wf_subjects ks.2) items ->
  fold_left (filter_into rt) items d = d ++ significant rt items.
Proof.
  revert d. induction items as [|item items IH]; csimpl; intros d Hnd Hwf.
  - by rewrite app_nil_r.
  - apply Forall_cons in Hwf as [Hitem Hwf].
    assert (Hfresh : item.1 ∉ odict.keys d).
    { apply NoDup_app in Hnd as (_ & Hdisj & _). intros Hin.
      apply (Hdisj _ Hin). apply list_elem_of_here. }
    rewrite filter_into_big by done. unfold significant. csimpl.
    destruct (is_big (odict.values item.2) rt); csimpl.
    + rewrite IH; [by rewrite <- app_assoc | | done].
      unfold odict.keys in *. rewrite fmap_app, <- app_assoc. done.
    + apply IH; [|done]. apply NoDup_app in Hnd as (Hd & Hdisj & Hitems).
      apply NoDup_cons in Hitems as [_ Hitems].
      apply NoDup_app. split; [done|]. split; [|done].
      intros x Hx Hx'. apply (Hdisj x Hx). by apply list_elem_of_further.
Qed.

(** The filter keeps, for each relation type and in their order, the
    reified relations that are big enough. *)
Lemma filter_relobjs_get (reified : per_reltype relobjs) (rt : reltype) :
  wf_index reified ->
  pr_get (filter_relobjs reified) rt = significant rt (pr_get reified rt).
Proof.
  intros Hwf. unfold filter_relobjs, pr_keys, odict.keys. simpl.
  rewrite !filter_relobjs_loop.
  assert (Hloop : forall rt',
    fold_left (filter_into rt') (pr_get reified rt') [] = significant rt' (pr_get reified rt')).
  { intros rt'. destruct (Hwf rt') as [Hk Hs]. by rewrite filter_into_loop. }
  destruct rt; simpl; apply Hloop.
Qed.

(** ** The inverter *)

Lemma fold_left_bind {A B S : Type} (f : S -> B -> S) (g : A -> list B) (l : list A) (s : S) :
  fold_left f (l ≫= g) s = fold_left (fun s x => fold_left f (g x) s) l s.
Proof.
  revert s. induction l as [|x l IH]; csimpl; intros s; [done|].
  by rewrite fold_left_app, IH.
Qed.

Lemma fold_left_fmap {A B S : Type} (f : S -> B -> S) (h : A -> B) (l : list A) (s : S) :
  fold_left f (h <$> l) s = fold_left (fun s x => f s (h x)) l s.
Proof. revert s. induction l as [|x l IH]; csimpl; intros s; [done | by rewrite IH]. Qed.

Lemma invert_filtered_relobjs_flat (reified : per_reltype relobjs)
    (filtered : per_reltype (list (string * entry))) :
  invert_filtered_relobjs reified filtered = fold_left invert_pair (reachable filtered) [].
Proof.
  unfold invert_filtered_relobjs, reachable, pr_keys.
  rewrite fold_left_bind. apply fold_left_ext. intros inv rt.
  unfold reachable_in. rewrite fold_left_bind. apply fold_left_ext.
  intros inv' [relobj e]. simpl. rewrite fold_left_bind. apply fold_left_ext.
  intros inv'' [subj occs]. simpl. rewrite fold_left_fmap. done.
Qed.

Section lookups.
Context {K V : Type} `{EqDecision K}.

Lemma get_app (k : K) (d d' : list (K * V)) :
  odict.get k (d ++ d') =
  match odict.get k d with
  | Some v => Some v
  | None => odict.get k d'
  end.
Proof.
  induction d as [|[k' v'] d IH]; simpl; [done|].
  destruct (decide (k' = k)); [done | apply IH].
Qed.

Lemma get_alter (f : V -> V) (k k' : K) (d : list (K * V)) :
  odict.get k (odict.alter f k' d) =
  if decide (k' = k) then f <$> odict.get k d else odict.get k d.
Proof.
  induction d as [|[k0 v0] d IH]; simpl; [by destruct (decide (k' = k))|].
  destruct (decide (k0 = k')) as [->|Hne]; simpl.
  - destruct (decide (k' = k)) as [->|Hne']; simpl; done.
  - rewrite IH. destruct (decide (k0 = k)) as [->|Hne']; [|done].
    by rewrite decide_False by done.
Qed.

Lemma get_setdefault (k k' : K) (v : V) (d : list (K * V)) :
  odict.get k (odict.setdefault k' v d) =
  match odict.get k d with
  | Some x => Some x
  | None => if decide (k' = k) then Some v else None
  end.
Proof.
  unfold odict.setdefault. destruct (odict.get k' d) eqn:Hk'.
  - destruct (odict.get k d) eqn:Hk; [done|].
    destruct (decide (k' = k)) as [->|]; [congruence | done].
  - rewrite get_app. simpl. done.
Qed.
End lookups.

Lemma invert_pair_lookup (inv : inverted) (x : string * (string * string)) (fname : string) :
  odict.get fname (invert_pair inv x) =
  if decide (x.1 = fname) then Some (default [] (odict.get fname inv) ++ [x.2])
  else odict.get fname inv.
Proof.
  unfold invert_pair. rewrite get_alter, get_setdefault.
  by destruct (decide (x.1 = fname)), (odict.get fname inv).
Qed.

Lemma invert_loop_lookup (l : list (string * (string * string))) (inv : inverted)
    (fname : string) :
  odict.get fname (fold_left invert_pair l inv) =
  match odict.get fname inv with
  | Some ps => Some (ps ++ pairs_under fname l)
  | None =>
      match pairs_under fname l with
      | [] => None
      | ps => Some ps
      end
  end.
Proof.
  revert inv. induction l as [|x l IH]; simpl; intros inv.
  - unfold pairs_under. simpl. destruct (odict.get fname inv); [by rewrite app_nil_r | done].
  - rewrite IH, invert_pair_lookup. unfold pairs_under.
    destruct (decide (x.1 = fname)) as [Heq|Hne].
    + rewrite filter_cons_True by done. csimpl.
      destruct (odict.get fname inv); simpl; [by rewrite <- app_assoc | done].
    + by rewrite filter_cons_False by done.
Qed.

Lemma invert_loop_NoDup (l : list (string * (string * string))) :
  NoDup (odict.keys (fold_left invert_pair l [])).
Proof.
  apply fold_left_invariant; [constructor|].
  intros inv x _ Hinv. by apply NoDup_keys_upsert.
Qed.

Lemma elem_pairs_under (fname : string) (p : string * string)
    (l : list (string * (string * string))) :
  p ∈ pairs_under fname l <-> (fname, p) ∈ l.
Proof.
  unfold pairs_under. rewrite list_elem_of_fmap. split.
  - intros ([k q] & -> & Hin). apply list_elem_of_filter in Hin as [Hk Hin].
    simpl in *. by subst.
  - intros Hin. exists (fname, p). split; [done|]. by apply list_elem_of_filter.
Qed.

Lemma elem_reachable (filtered : per_reltype (list (string * entry)))
    (fname relobj subj : string) :
  (fname, (relobj, subj)) ∈ reachable filtered <->
  exists rt e occs o,
    (relobj, e) ∈ pr_get filtered rt /\ (subj, occs) ∈ data e /\ o ∈ occs /\
    fname = sha o +:+ ".json".
Proof.
  unfold reachable, reachable_in. rewrite list_elem_of_bind. split.
  - intros (rt & Hin & _). apply list_elem_of_bind in Hin as ([r e] & Hin & He).
    apply list_elem_of_bind in Hin as ([s occs] & Hin & Hs).
    apply list_elem_of_fmap in Hin as (o & [= -> -> ->] & Ho). simpl in *.
    by exists rt, e, occs, o.
  - intros (rt & e & occs & o & He & Hs & Ho & ->).
    exists rt. split; [|apply (pr_keys_all filtered)].
    apply list_elem_of_bind. exists (relobj, e). split; [|done].
    apply list_elem_of_bind. exists (subj, occs). split; [|done].
    apply list_elem_of_fmap. by exists o.
Qed.

(** The pairs stored under a file name are those of the occurrences met
    under that name, in order and with their repetitions; a file name under
    which no occurrence is met is no key at all. *)
Lemma invert_filtered_relobjs_lookup (reified : per_reltype relobjs)
    (filtered : per_reltype (list (string * entry))) (fname : string) :
  odict.get fname (invert_filtered_relobjs reified filtered) =
  match pairs_under fname (reachable filtered) with
  | [] => None
  | ps => Some ps
  end.
Proof. by rewrite invert_filtered_relobjs_flat, invert_loop_lookup. Qed.

Lemma invert_filtered_relobjs_NoDup (reified : per_reltype relobjs)
    (filtered : per_reltype (list (string * entry))) :
  NoDup (odict.keys (invert_filtered_relobjs reified filtered)).
Proof. rewrite invert_filtered_relobjs_flat. apply invert_loop_NoDup. Qed.

(** ** The ranking of the subjects *)

Lemma item_lt_asym (a b : string * list occurrence) : item_lt a b = true -> item_lt b a = false.
Proof. apply pair_lt_asym. Qed.

Lemma item_le_trans (a b c : string * list occurrence) :
  item_lt b a = false -> item_lt c b = false -> item_lt c a = false.
Proof. apply pair_le_trans. Qed.

Lemma item_lt_ranks (a b : string * list occurrence) : item_lt b a = true <-> ranks_before a b.
Proof. unfold item_lt, ranks_before. by rewrite pair_lt_spec. Qed.

Lemma subjects_sorted_items (subjs : subjects) :
  subjects_sorted subjs =
  (fun kv : string * list occurrence => (length kv.2, kv.1, kv.2))
    <$> reverse (sorted item_lt subjs).
Proof.
  unfold subjects_sorted. rewrite fmap_reverse. f_equal.
  symmetry. by apply sorted_fmap.
Qed.

(** The subjects kept are the first eight of the subjects sorted on
    [(count, name)] and reversed. *)
Lemma retained_sorted (subjs : subjects) :
  retained subjs = take 8 (reverse (sorted item_lt subjs)).
Proof.
  unfold retained. rewrite subjects_sorted_items, <- fmap_take, <- list_fmap_compose.
  rewrite <- (list_fmap_id (take 8 _)) at 2. apply list_fmap_ext. by intros i [k v] _.
Qed.

Lemma ranked_Permutation (subjs : subjects) : reverse (sorted item_lt subjs) ≡ₚ subjs.
Proof. by rewrite reverse_Permutation, sorted_Permutation. Qed.

Lemma StronglySorted_distinct {A B : Type} (R : relation A) (f : A -> B) (l : list A) :
  StronglySorted R l -> NoDup (f <$> l) -> StronglySorted (fun a b => R a b /\ f a <> f b) l.
Proof.
  induction 1 as [|x l Hl IH Hx]; csimpl; intros Hnd; [constructor|].
  apply NoDup_cons in Hnd as [Hxl Hnd]. constructor; [by apply IH|].
  rewrite Forall_forall in Hx |- *. intros y Hy. split; [by apply Hx|].
  intros Heq. apply Hxl. rewrite Heq. by apply list_elem_of_fmap_2.
Qed.

Lemma sorted_ascending (subjs : subjects) :
  wf_subjects subjs -> StronglySorted (fun a b => item_lt a b = true) (sorted item_lt subjs).
Proof.
  intros Hwf.
  pose proof (sorted_StronglySorted item_lt item_lt_asym item_le_trans subjs) as Hs.
  apply (StronglySorted_distinct _ fst) in Hs.
  - eapply StronglySorted_fmap with (f := fun x => x) in Hs; [by rewrite list_fmap_id in Hs|].
    intros a b [Hab Hne]. simpl. destruct (item_lt a b) eqn:Hlt; [done|].
    exfalso. apply Hne. unfold not_after, item_lt in *.
    pose proof (pair_lt_total _ _ Hlt Hab) as Heq. unfold count_name in Heq. congruence.
  - unfold wf_subjects, odict.keys in Hwf. by rewrite sorted_Permutation.
Qed.

Lemma ranked_StronglySorted (subjs : subjects) :
  wf_subjects subjs -> StronglySorted ranks_before (reverse (sorted item_lt subjs)).
Proof.
  intros Hwf. apply sorted_ascending, StronglySorted_reverse in Hwf.
  eapply StronglySorted_fmap with (f := fun x => x) in Hwf; [by rewrite list_fmap_id in Hwf|].
  intros a b Hab. simpl. by apply item_lt_ranks.
Qed.

(** ** Lookups in the filtered index *)

Lemma keys_significant (rt : reltype) (d : relobjs) (key : string) :
  key ∈ odict.keys (significant rt d) -> key ∈ odict.keys d.
Proof.
  unfold odict.keys, significant. rewrite !list_elem_of_fmap.
  intros ([k e] & -> & Hin). apply list_elem_of_omap in Hin as ([k' s] & Hin & Hf).
  simpl in Hf. destruct (is_big (odict.values s) rt); [|done].
  injection Hf as -> _. by exists (k, s).
Qed.

Lemma significant_lookup (rt : reltype) (d : relobjs) (key : string) :
  NoDup (odict.keys d) ->
  odict.get key (significant rt d) =
  match odict.get key d with
  | Some subjs => if is_big (odict.values subjs) rt then Some (filtered_entry subjs) else None
  | None => None
  end.
Proof.
  induction d as [|[k s] d IH]; csimpl; intros Hnd; [done|].
  apply NoDup_cons in Hnd as [Hk Hnd]. specialize (IH Hnd).
  destruct (decide (k = key)) as [->|Hne].
  - destruct (is_big (odict.values s) rt); simpl.
    + by rewrite decide_True.
    + apply odict_facts.get_None. intros Hin. apply Hk. by apply keys_significant in Hin.
  - destruct (is_big (odict.values s) rt); simpl; [|done]. by rewrite decide_False.
Qed.

Lemma filter_relobjs_lookup (reified : per_reltype relobjs) (rt : reltype) (key : string) :
  wf_index reified ->
  odict.get key (pr_get (filter_relobjs reified) rt) =
  match odict.get key (pr_get reified rt) with
  | Some subjs => if is_big (odict.values subjs) rt then Some (filtered_entry subjs) else None
  | None => None
  end.
Proof.
  intros Hwf. rewrite filter_relobjs_get by done. apply significant_lookup, Hwf.
Qed.

(** A key of the filtered index is a key of the reified index. *)
Lemma filter_relobjs_source (reified : per_reltype relobjs) (rt : reltype) (key : string)
    (e : entry) :
  wf_index reified ->
  odict.get key (pr_get (filter_relobjs reified) rt) = Some e ->
  exists subjs,
    odict.get key (pr_get reified rt) = Some subjs /\
    is_big (odict.values subjs) rt = true /\ e = filtered_entry subjs.
Proof.
  intros Hwf. rewrite filter_relobjs_lookup by done.
  destruct (odict.get key (pr_get reified rt)) as [subjs|]; [|done].
  destruct (is_big (odict.values subjs) rt) eqn:Hbig; [|done].
  intros [= <-]. by exists subjs.
Qed.

(** * The engine, stage by stage *)

(** ** The significance filter *)

Lemma size_of_cons {A : Type} (x : list A) (l : list (list A)) :
  size_of (x :: l) = length x + size_of l.
Proof. done. Qed.

Lemma size_of_app {A : Type} (l k : list (list A)) : size_of (l ++ k) = size_of l + size_of k.
Proof. induction l as [|x l IH]; [done|]. simpl. rewrite !size_of_cons, IH. lia. Qed.

Lemma size_of_values_Permutation (s s' : subjects) :
  s ≡ₚ s' -> size_of (odict.values s) = size_of (odict.values s').
Proof.
  unfold odict.values.
  induction 1 as [|x l l' _ IH|x y l|l l' l'' _ IH1 _ IH2]; csimpl;
    rewrite ?size_of_cons; [done | by rewrite IH | lia | congruence].
Qed.

(** C2: a reified relation of the reified index is a key of the filtered
    index if and only if the sum of the lengths of the occurrence lists of
    its subjects is at least 25 when the name of the relation type ends in
    "Amount", and at least 100 otherwise; a sum equal to the threshold is
    enough. *)
Theorem filter_relobjs_threshold (reified : per_reltype relobjs) (rt : reltype)
    (key : string) (subjs : subjects) :
  wf_index reified ->
  odict.get key (pr_get reified rt) = Some subjs ->
  key ∈ odict.keys (pr_get (filter_relobjs reified) rt) <->
  (if endswith (reltype_name rt) "Amount" then 25 else 100)
    <= sum_list (length <$> odict.values subjs).
Proof.
  intros Hwf Hkey. rewrite <- odict_facts.get_is_Some, filter_relobjs_lookup, Hkey by done.
  unfold is_big, minimum_size, size_of.
  destruct (_ <=? _) eqn:Hle.
  - apply Nat.leb_le in Hle. split; [done | by eauto].
  - apply Nat.leb_gt in Hle. split; [intros [? ?]; done | lia].
Qed.

Lemma filter_relobjs_threshold_witness :
  wf_index hundred /\
  odict.get "TNF-activator" (pr_get hundred Activation) = Some hundred_subjects /\
  ("TNF-activator" ∈ odict.keys (pr_get (filter_relobjs hundred) Activation) <->
   (if endswith (reltype_name Activation) "Amount" then 25 else 100)
     <= sum_list (length <$> odict.values hundred_subjects)).
Proof.
  assert (Hwf : wf_index hundred) by compute_done.
  split; [exact Hwf|]. split; [vm_compute; reflexivity|].
  apply (filter_relobjs_threshold hundred Activation "TNF-activator" hundred_subjects Hwf).
  vm_compute; reflexivity.
Defined.

(** The thresholds of the four relation types. *)
Example minimum_size_values :
  minimum_size <$> [Activation; Inhibition; IncreaseAmount; DecreaseAmount] = [100; 100; 25; 25].
Proof. vm_compute; reflexivity. Qed.

(** C1: under a key of the filtered index the subjects kept stand in the
    order of their number of occurrences, largest first, and, among subjects
    with as many occurrences, in the order of their names, latest first; the
    pairs (count, name) in that order are the first eight of the pairs of all
    subjects sorted in ascending order and then reversed. *)
Theorem filter_relobjs_order (reified : per_reltype relobjs) (rt : reltype)
    (key : string) (e : entry) :
  wf_index reified ->
  odict.get key (pr_get (filter_relobjs reified) rt) = Some e ->
  exists subjs,
    odict.get key (pr_get reified rt) = Some subjs /\
    StronglySorted ranks_before (data e) /\
    StronglySorted (fun a b => pair_lt a b = true) (sorted pair_lt (count_name <$> subjs)) /\
    count_name <$> data e = take 8 (reverse (sorted pair_lt (count_name <$> subjs))).
Proof.
  intros Hwf He. destruct (filter_relobjs_source _ _ _ _ Hwf He) as (subjs & Hs & _ & ->).
  exists subjs. split; [done|].
  assert (Hsubjs : wf_subjects subjs).
  { destruct (Hwf rt) as [_ Hall]. rewrite Forall_forall in Hall.
    by apply (Hall (key, subjs)), odict_facts.get_Some_elem. }
  assert (Hpairs : count_name <$> sorted item_lt subjs = sorted pair_lt (count_name <$> subjs))
    by by apply sorted_fmap.
  simpl. rewrite retained_sorted. split; [|split].
  - by apply StronglySorted_take, ranked_StronglySorted.
  - rewrite <- Hpairs. eapply StronglySorted_fmap; [|by apply sorted_ascending].
    by intros a b Hab.
  - by rewrite fmap_take, fmap_reverse, Hpairs.
Qed.

Lemma filter_relobjs_order_witness :
  wf_index tied /\
  (exists e, odict.get "TNF-decreaser" (pr_get (filter_relobjs tied) DecreaseAmount) = Some e /\
   exists subjs,
     odict.get "TNF-decreaser" (pr_get tied DecreaseAmount) = Some subjs /\
     StronglySorted ranks_before (data e) /\
     StronglySorted (fun a b => pair_lt a b = true) (sorted pair_lt (count_name <$> subjs)) /\
     count_name <$> data e = take 8 (reverse (sorted pair_lt (count_name <$> subjs)))).
Proof.
  assert (Hwf : wf_index tied) by compute_done.
  split; [exact Hwf|]. exists (filtered_entry tied_subjects). split; [vm_compute; reflexivity|].
  apply (filter_relobjs_order tied DecreaseAmount "TNF-decreaser" _ Hwf). vm_compute; reflexivity.
Defined.

(** With tied counts the later name comes first. *)
Example tied_order :
  (fun e => count_name <$> data e)
    <$> odict.get "TNF-decreaser" (pr_get (filter_relobjs tied) DecreaseAmount)
  = Some [(10, "IL6"); (10, "IL12"); (10, "IFNG"); (3, "IL2")].
Proof. vm_compute; reflexivity. Qed.

Lemma retained_NoDup (subjs : subjects) :
  wf_subjects subjs -> NoDup (odict.keys (retained subjs)).
Proof.
  intros Hwf. rewrite retained_sorted. unfold odict.keys. rewrite fmap_take.
  eapply sublist_NoDup; [|apply sublist_take]. by rewrite ranked_Permutation.
Qed.

Lemma filter_relobjs_subjects (reified : per_reltype relobjs) (rt : reltype)
    (key : string) (subjs : subjects) :
  wf_index reified -> odict.get key (pr_get reified rt) = Some subjs -> wf_subjects subjs.
Proof.
  intros Hwf Hs. destruct (Hwf rt) as [_ Hall]. rewrite Forall_forall in Hall.
  by apply (Hall (key, subjs)), odict_facts.get_Some_elem.
Qed.

(** C6: under a key of the filtered index at most eight subjects are kept
    (all of them when there are no more than eight); each is a subject of the
    reified index with its list of occurrences as it stands there; and every
    subject that is not kept ranks after every subject that is. *)
Theorem filter_relobjs_top8 (reified : per_reltype relobjs) (rt : reltype)
    (key : string) (e : entry) :
  wf_index reified ->
  odict.get key (pr_get (filter_relobjs reified) rt) = Some e ->
  exists subjs,
    odict.get key (pr_get reified rt) = Some subjs /\
    length (data e) = min 8 (length subjs) /\
    (forall subj occs,
       odict.get subj (data e) = Some occs -> odict.get subj subjs = Some occs) /\
    (forall subj occs subj' occs',
       odict.get subj subjs = Some occs -> odict.get subj (data e) = None ->
       odict.get subj' (data e) = Some occs' ->
       ranks_before (subj', occs') (subj, occs)).
Proof.
  intros Hwf He. destruct (filter_relobjs_source _ _ _ _ Hwf He) as (subjs & Hs & _ & ->).
  exists subjs. split; [done|].
  pose proof (filter_relobjs_subjects _ _ _ _ Hwf Hs) as Hsubjs.
  pose proof (retained_NoDup _ Hsubjs) as Hnd.
  pose proof (ranked_StronglySorted _ Hsubjs) as Hsorted.
  simpl. rewrite retained_sorted in *. split; [|split].
  - by rewrite length_take, (Permutation_length (ranked_Permutation subjs)).
  - intros subj occs Hget. apply odict_facts.get_Some_elem in Hget.
    apply odict_facts.elem_get; [done|].
    rewrite <- (ranked_Permutation subjs). eapply elem_of_sublist; [done|].
    apply sublist_take.
  - intros subj occs subj' occs' Hin Hout Hkept.
    rewrite <- (take_drop 8 (reverse (sorted item_lt subjs))) in Hsorted.
    apply (StronglySorted_app_1_elem_of _ _ _ _ _ Hsorted).
    + by apply odict_facts.get_Some_elem.
    + apply odict_facts.get_Some_elem in Hin.
      rewrite <- (ranked_Permutation subjs) in Hin.
      rewrite <- (take_drop 8 (reverse (sorted item_lt subjs))) in Hin.
      apply elem_of_app in Hin as [Hin|Hin]; [|done].
      apply (odict_facts.elem_get _ _ _ Hnd) in Hin. congruence.
Qed.

Lemma filter_relobjs_top8_witness :
  wf_index nine /\
  (exists e, odict.get "TNF-increaser" (pr_get (filter_relobjs nine) IncreaseAmount) = Some e /\
   exists subjs,
     odict.get "TNF-increaser" (pr_get nine IncreaseAmount) = Some subjs /\
     length (data e) = min 8 (length subjs) /\
     (forall subj occs,
        odict.get subj (data e) = Some occs -> odict.get subj subjs = Some occs) /\
     (forall subj occs subj' occs',
        odict.get subj subjs = Some occs -> odict.get subj (data e) = None ->
        odict.get subj' (data e) = Some occs' ->
        ranks_before (subj', occs') (subj, occs))).
Proof.
  assert (Hwf : wf_index nine) by compute_done.
  split; [exact Hwf|]. exists (filtered_entry nine_subjects). split; [vm_compute; reflexivity|].
  apply (filter_relobjs_top8 nine IncreaseAmount "TNF-increaser" _ Hwf). vm_compute; reflexivity.
Defined.

(** Of nine subjects with one to nine occurrences the one with a single
    occurrence is dropped, and the others keep their lists. *)
Example nine_subjects_kept :
  data <$> odict.get "TNF-increaser" (pr_get (filter_relobjs nine) IncreaseAmount)
  = Some (reverse (drop 1 nine_subjects)).
Proof. vm_compute; reflexivity. Qed.

Lemma size_of_values_occupied (s : subjects) :
  Forall (fun kv => kv.2 <> []) s -> length s <= size_of (odict.values s).
Proof.
  unfold odict.values. induction 1 as [|[k v] s Hv _ IH]; csimpl; [done|].
  rewrite size_of_cons. destruct v; simpl in *; [done | lia].
Qed.

(** C5: the size recorded under a key of the filtered index is the sum of
    the lengths of the occurrence lists of all subjects of the reified
    relation; it is at least the sum over the subjects kept, and strictly
    more when the reified relation has more than eight subjects (none of
    them with an empty list). *)
Theorem filter_relobjs_size (reified : per_reltype relobjs) (rt : reltype)
    (key : string) (e : entry) :
  wf_index reified ->
  odict.get key (pr_get (filter_relobjs reified) rt) = Some e ->
  exists subjs,
    odict.get key (pr_get reified rt) = Some subjs /\
    size e = sum_list (length <$> odict.values subjs) /\
    sum_list (length <$> odict.values (data e)) <= size e /\
    (8 < length subjs -> Forall (fun kv => kv.2 <> []) subjs ->
     sum_list (length <$> odict.values (data e)) < size e).
Proof.
  intros Hwf He. destruct (filter_relobjs_source _ _ _ _ Hwf He) as (subjs & Hs & _ & ->).
  exists subjs. split; [done|]. split; [done|]. simpl. rewrite retained_sorted.
  change (size_of (odict.values (take 8 (reverse (sorted item_lt subjs))))
            <= size_of (odict.values subjs) /\
          (8 < length subjs -> Forall (fun kv => kv.2 <> []) subjs ->
           size_of (odict.values (take 8 (reverse (sorted item_lt subjs))))
             < size_of (odict.values subjs))).
  rewrite <- (size_of_values_Permutation _ _ (ranked_Permutation subjs)).
  rewrite <- (take_drop 8 (reverse (sorted item_lt subjs))) at 2 4.
  unfold odict.values. rewrite fmap_app, size_of_app. split; [lia|].
  intros Hlen Hall.
  assert (Hdrop : length (drop 8 (reverse (sorted item_lt subjs)))
                    <= size_of (odict.values (drop 8 (reverse (sorted item_lt subjs))))).
  { apply size_of_values_occupied, Forall_drop. by rewrite ranked_Permutation. }
  rewrite length_drop, (Permutation_length (ranked_Permutation subjs)) in Hdrop.
  unfold odict.values in Hdrop. lia.
Qed.

Lemma filter_relobjs_size_witness :
  wf_index nine /\
  (exists e, odict.get "TNF-increaser" (pr_get (filter_relobjs nine) IncreaseAmount) = Some e /\
   exists subjs,
     odict.get "TNF-increaser" (pr_get nine IncreaseAmount) = Some subjs /\
     size e = sum_list (length <$> odict.values subjs) /\
     sum_list (length <$> odict.values (data e)) <= size e /\
     (8 < length subjs -> Forall (fun kv => kv.2 <> []) subjs ->
      sum_list (length <$> odict.values (data e)) < size e)).
Proof.
  assert (Hwf : wf_index nine) by compute_done.
  split; [exact Hwf|]. exists (filtered_entry nine_subjects). split; [vm_compute; reflexivity|].
  apply (filter_relobjs_size nine IncreaseAmount "TNF-increaser" _ Hwf). vm_compute; reflexivity.
Defined.

(** With nine subjects the recorded size counts the occurrences of the
    subject that is dropped: 45 against 44. *)
Example nine_subjects_size :
  (fun e => (size e, sum_list (length <$> odict.values (data e))))
    <$> odict.get "TNF-increaser" (pr_get (filter_relobjs nine) IncreaseAmount)
  = Some (45, 44).
Proof. vm_compute; reflexivity. Qed.

(** ** The inverter *)

Lemma append_json_neq (s : string) : s +:+ ".json" <> s.
Proof. induction s as [|c s IH]; simpl; [done|]. intros [= Heq]. done. Qed.

Lemma inverted_pairs_source (reified : per_reltype relobjs)
    (filtered : per_reltype (list (string * entry))) (fname : string)
    (pairs : list (string * string)) :
  odict.get fname (invert_filtered_relobjs reified filtered) = Some pairs ->
  pairs <> [] /\
  forall relobj subj,
    (relobj, subj) ∈ pairs ->
    exists rt e occs o,
      (relobj, e) ∈ pr_get filtered rt /\ (subj, occs) ∈ data e /\ o ∈ occs /\
      sha o +:+ ".json" = fname.
Proof.
  rewrite invert_filtered_relobjs_lookup.
  destruct (pairs_under fname (reachable filtered)) as [|p ps] eqn:Hps; [done|].
  intros [= <-]. split; [done|]. intros relobj subj Hin.
  rewrite <- Hps in Hin. apply elem_pairs_under, elem_reachable in Hin.
  destruct Hin as (rt & e & occs & o & ? & ? & ? & ->). by exists rt, e, occs, o.
Qed.

(** C3, as amended: under every key of the inverted index the list of pairs
    is not empty, and every pair (reified relation, subject) in it comes from
    an occurrence that stands in the filtered index under that reified
    relation and that subject, and whose ['sha'] followed by ".json" is the
    key. *)
Theorem invert_filtered_relobjs_sound (reified : per_reltype relobjs)
    (filtered : per_reltype (list (string * entry))) (fname : string)
    (pairs : list (string * string)) :
  odict.get fname (invert_filtered_relobjs reified filtered) = Some pairs ->
  pairs <> [] /\
  forall relobj subj,
    (relobj, subj) ∈ pairs ->
    exists rt e occs o,
      (relobj, e) ∈ pr_get filtered rt /\ (subj, occs) ∈ data e /\ o ∈ occs /\
      sha o +:+ ".json" = fname.
Proof.
  intros Hget. destruct (inverted_pairs_source _ _ _ _ Hget) as [Hne Hall].
  split; [exact Hne|]. intros relobj subj Hin.
  destruct (Hall relobj subj Hin) as (rt & e & occs & o & He & Hs & Ho & Hsha).
  exists rt, e, occs, o. repeat split; assumption.
Qed.

Lemma invert_filtered_relobjs_sound_witness :
  exists pairs,
    odict.get "fd955af6.json" (invert_filtered_relobjs tied (filter_relobjs tied)) = Some pairs /\
    pairs <> [] /\
    forall relobj subj,
      (relobj, subj) ∈ pairs ->
      exists rt e occs o,
        (relobj, e) ∈ pr_get (filter_relobjs tied) rt /\ (subj, occs) ∈ data e /\ o ∈ occs /\
        sha o +:+ ".json" = "fd955af6.json".
Proof.
  eexists. split; [vm_compute; reflexivity|].
  apply (invert_filtered_relobjs_sound tied (filter_relobjs tied) "fd955af6.json").
  vm_compute; reflexivity.
Defined.

(** C3, as it is stated, fails: the key under which a pair is stored is a
    file name, and no occurrence of the filtered index has it as its
    ['sha']. *)
Lemma invert_filtered_relobjs_key_is_no_sha :
  ~ (forall (reified : per_reltype relobjs) (filtered : per_reltype (list (string * entry)))
            (fname : string) (pairs : list (string * string)) (relobj subj : string),
       odict.get fname (invert_filtered_relobjs reified filtered) = Some pairs ->
       (relobj, subj) ∈ pairs ->
       exists rt e occs o,
         (relobj, e) ∈ pr_get filtered rt /\ (subj, occs) ∈ data e /\ o ∈ occs /\
         sha o = fname).
Proof.
  intros Hclaim.
  destruct (Hclaim tied (filter_relobjs tied) "fd955af6.json"
              (replicate 10 ("TNF-decreaser", "IFNG") ++ replicate 3 ("TNF-decreaser", "IL2"))
              "TNF-decreaser" "IL2")
    as (rt & e & occs & o & He & Hs & Ho & Hsha).
  - vm_compute; reflexivity.
  - apply elem_of_app. right. by apply elem_of_replicate.
  - assert (Hin : (sha o +:+ ".json", ("TNF-decreaser", "IL2")) ∈ reachable (filter_relobjs tied)).
    { apply elem_reachable. by exists rt, e, occs, o. }
    assert (Hall : Forall (fun x : string * (string * string) =>
                             x.1 ∈ ["d3f7afa8.json"; "fd955af6.json"])
                          (reachable (filter_relobjs tied))) by compute_done.
    rewrite Forall_forall in Hall. apply Hall in Hin. rewrite Hsha in Hin. simpl in Hin.
    apply elem_of_cons in Hin as [Hin|Hin]; [discriminate|].
    apply elem_of_cons in Hin as [Hin|Hin]; [discriminate|].
    by apply elem_of_nil in Hin.
Qed.

(** C9: every key of the inverted index is the ['sha'] of an occurrence of
    the filtered index followed by ".json", which is never that ['sha']
    itself; and the lookup of [convert_file] under the file name made of the
    ['sha'] of an occurrence and ".json" finds the pair of that occurrence. *)
Theorem inverted_keys_are_file_names (reified : per_reltype relobjs)
    (filtered : per_reltype (list (string * entry))) :
  (forall fname,
     fname ∈ odict.keys (invert_filtered_relobjs reified filtered) ->
     exists rt relobj e subj occs o,
       (relobj, e) ∈ pr_get filtered rt /\ (subj, occs) ∈ data e /\ o ∈ occs /\
       fname = sha o +:+ ".json" /\ fname <> sha o) /\
  (forall rt relobj e subj occs o,
     (relobj, e) ∈ pr_get filtered rt -> (subj, occs) ∈ data e -> o ∈ occs ->
     sha o +:+ ".json" ∈ odict.keys (invert_filtered_relobjs reified filtered) /\
     (relobj, subj) ∈ RelationImporter.relations_of_file
                        (invert_filtered_relobjs reified filtered) (sha o +:+ ".json")).
Proof.
  split.
  - intros fname Hkey. apply odict_facts.get_is_Some in Hkey as [pairs Hget].
    destruct (inverted_pairs_source _ _ _ _ Hget) as [Hne Hall].
    destruct pairs as [|[relobj subj] pairs]; [done|].
    destruct (Hall relobj subj) as (rt & e & occs & o & ? & ? & ? & <-);
      [apply list_elem_of_here|].
    exists rt, relobj, e, subj, occs, o. repeat split; try done. apply append_json_neq.
  - intros rt relobj e subj occs o He Hs Ho.
    assert (Hin : (relobj, subj) ∈ pairs_under (sha o +:+ ".json") (reachable filtered)).
    { apply elem_pairs_under, elem_reachable. by exists rt, e, occs, o. }
    unfold RelationImporter.relations_of_file.
    rewrite <- odict_facts.get_is_Some, invert_filtered_relobjs_lookup.
    destruct (pairs_under (sha o +:+ ".json") (reachable filtered)) as [|p ps].
    + by apply elem_of_nil in Hin.
    + split; [by eauto | done].
Qed.

(** The keys of the inverted index of the sample with tied counts. *)
Example tied_inverted_keys :
  odict.keys (invert_filtered_relobjs tied (filter_relobjs tied))
  = ["d3f7afa8.json"; "fd955af6.json"].
Proof. vm_compute; reflexivity. Qed.

(** ** The collector *)

Lemma collect_evidence_entry_resolved (metadata : Metadata) (evidence evidence' : list evidence_tuple)
    (e : json) :
  collect_evidence_entry metadata evidence e = Ok evidence' ->
  evidence' = evidence ++ option_list (resolved metadata e).
Proof.
  unfold collect_evidence_entry, resolved.
  destruct e as [| | | |items|d]; simpl; try done.
  destruct (default JNull (odict.get "pmid" d)) as [| | |p| |]; simpl;
    try (intros [= <-]; by rewrite app_nil_r); try done.
  destruct (pmid2sha metadata !! p); simpl; intros [= <-]; [done | by rewrite app_nil_r].
Qed.

Lemma collect_evidence_resolved (metadata : Metadata) (entries : list json)
    (evidence evidence' : list evidence_tuple) :
  for_each (collect_evidence_entry metadata) entries evidence = Ok evidence' ->
  evidence' = evidence ++ omap (resolved metadata) entries.
Proof.
  revert evidence. induction entries as [|e entries IH]; simpl; intros evidence.
  - intros [= <-]. by rewrite app_nil_r.
  - destruct (collect_evidence_entry metadata evidence e) as [ev1|] eqn:He; [|done].
    intros Hrest. apply IH in Hrest as ->.
    apply collect_evidence_entry_resolved in He as ->.
    rewrite <- app_assoc. f_equal. by destruct (resolved metadata e).
Qed.

(** What a record adds to the relations collected so far. *)
Lemma collect_record_adds (metadata : Metadata) (relations relations' : list collected)
    (result : json) :
  collect_record metadata relations result = Ok relations' ->
  relations' = relations \/
  exists rt sub obj entries,
    relations' = relations ++ [(rt, sub, obj, omap (resolved metadata) entries)] /\
    omap (resolved metadata) entries <> [] /\
    (getitem result "evidence" ≫= iterate) = Ok entries.
Proof.
  unfold collect_record.
  destruct (getitem result "type") as [ty|]; simpl; [|done].
  destruct (target_relation ty) as [rt|]; [|intros [= <-]; by left].
  destruct (subject_and_object result) as [[sub obj]|[]]; try done;
    [|intros [= <-]; by left].
  destruct (getitem result "evidence") as [field|]; simpl; [|done].
  destruct (iterate field) as [entries|]; simpl; [|done].
  destruct (for_each (collect_evidence_entry metadata) entries []) as [evidence|] eqn:Hev;
    simpl; [|done].
  apply collect_evidence_resolved in Hev. simpl in Hev. subst evidence.
  destruct (omap (resolved metadata) entries) as [|t ts] eqn:Hres.
  - intros [= <-]. by left.
  - intros [= <-]. right. exists rt, sub, obj, entries. by rewrite Hres.
Qed.

Lemma string_names_evidence (raw : list collected) (rels : list relation_tuple) :
  mapM string_names raw = Some rels ->
  Forall (fun c : collected => c.2 <> []) raw ->
  Forall (fun rel : relation_tuple => rel.2 <> []) rels.
Proof.
  intros Hm. apply mapM_Some_1 in Hm.
  induction Hm as [|c rel raw rels Hc _ IH]; intros Hraw; [constructor|].
  apply Forall_cons in Hraw as [Hne Hraw]. constructor; [|by apply IH].
  destruct c as [[[rt sub] obj] ev]. destruct sub, obj; simpl in Hc; try done.
  by injection Hc as <-.
Qed.

Lemma collect_record_relation_of (metadata : Metadata) (relations relations' : list collected)
    (result : json) :
  collect_record metadata relations result = Ok relations' ->
  relations' = relations ++ option_list (relation_of metadata result).
Proof.
  unfold collect_record, relation_of.
  destruct (getitem result "type") as [ty|]; simpl; [|done].
  destruct (target_relation ty) as [rt|]; [|intros [= <-]; by rewrite app_nil_r].
  destruct (subject_and_object result) as [[sub obj]|[]]; try done;
    [|intros [= <-]; by rewrite app_nil_r].
  destruct (getitem result "evidence") as [field|]; simpl; [|done].
  destruct (iterate field) as [entries|]; simpl; [|done].
  destruct (for_each (collect_evidence_entry metadata) entries []) as [evidence|] eqn:Hev;
    simpl; [|done].
  apply collect_evidence_resolved in Hev. simpl in Hev. subst evidence.
  destruct (omap (resolved metadata) entries) as [|t ts]; intros [= <-];
    [by rewrite app_nil_r | done].
Qed.

Lemma collect_loop_relation_of (metadata : Metadata) (l : list json)
    (relations relations' : list collected) :
  for_each (collect_record metadata) l relations = Ok relations' ->
  relations' = relations ++ omap (relation_of metadata) l.
Proof.
  revert relations. induction l as [|result l IH]; simpl; intros relations.
  - intros [= <-]. by rewrite app_nil_r.
  - destruct (collect_record metadata relations result) as [relations1|] eqn:Hrec; [|done].
    intros Hrest. apply IH in Hrest as ->.
    apply collect_record_relation_of in Hrec as ->.
    rewrite <- app_assoc. f_equal. by destruct (relation_of metadata result).
Qed.

Lemma relation_of_evidence (metadata : Metadata) (result : json) (c : collected) :
  relation_of metadata result = Some c -> c.2 <> [].
Proof.
  unfold relation_of.
  destruct (getitem result "type") as [ty|]; [|done].
  destruct (target_relation ty) as [rt|]; [|done].
  destruct (subject_and_object result) as [[sub obj]|]; [|done].
  destruct (getitem result "evidence" ≫= iterate) as [entries|]; [|done].
  destruct (omap (resolved metadata) entries) as [|t ts]; [done|]. by intros [= <-].
Qed.

Section any_names.
Context {V : Type} (same_key : json -> json -> bool).

Lemma Forall_setdefault_then (P : V -> Prop) (f : V -> V) (v0 : V) (k : json)
    (d : list (json * V)) :
  Forall (fun kv => P kv.2) d -> (forall v, P v -> P (f v)) -> P (f v0) ->
  Forall (fun kv => P kv.2) (setdefault_then same_key f v0 k d).
Proof.
  intros Hd Hf H0. induction Hd as [|[k' v'] d Hv Hd IH]; simpl.
  - by repeat constructor.
  - destruct (same_key k' k); constructor; simpl in *; auto.
Qed.
End any_names.

Lemma reify_collected_relation_occupied (percent_s_of : json -> string)
    (hashable : json -> bool) (same_key : json -> json -> bool)
    (idx idx' : per_reltype (list (string * list (json * list occurrence))))
    (rel : collected) :
  rel.2 <> [] ->
  (forall rt, Forall (fun ks : string * list (json * list occurrence) =>
                        Forall (fun kv => kv.2 <> []) ks.2) (pr_get idx rt)) ->
  reify_collected_relation percent_s_of hashable same_key idx rel = Ok idx' ->
  forall rt, Forall (fun ks : string * list (json * list occurrence) =>
                       Forall (fun kv => kv.2 <> []) ks.2) (pr_get idx' rt).
Proof.
  destruct rel as [[[rel0 rel1] rel2] rel3]. simpl. intros Hev Hidx.
  unfold reify_collected_relation. destruct (hashable rel1); [|done].
  intros [= <-] rt. rewrite pr_alter_compose, pr_get_alter.
  destruct (decide (rel0 = rt)) as [<-|]; [|done].
  assert (Hds : forall l : list occurrence,
    l ++ ((fun e : evidence_tuple => {| pmid := e.1.1; sha := e.1.2; text := e.2 |}) <$> rel3)
      <> []).
  { intros l Hl. apply app_eq_nil in Hl as [_ Hl]. by apply fmap_nil_inv in Hl. }
  apply (Forall_values_upsert
           (fun subjs : list (json * list occurrence) => Forall (fun kv => kv.2 <> []) subjs));
    [apply Hidx | |].
  - intros subjs Hsubjs.
    apply (Forall_setdefault_then same_key (fun l : list occurrence => l <> []));
      [done | intros l _; apply Hds | apply Hds].
  - apply (Forall_setdefault_then same_key (fun l : list occurrence => l <> []));
      [constructor | intros l _; apply Hds | apply Hds].
Qed.

(** On names that are strings, formatted as they are and compared as
    strings, the reifier for names of any kind builds the index of
    [reify_relations]. *)
Lemma setdefault_then_strings {V : Type} (same_key : json -> json -> bool) (f : V -> V)
    (v0 : V) (k : string) (d : list (string * V)) :
  (forall a b : string, same_key (JStr a) (JStr b) = bool_decide (a = b)) ->
  setdefault_then same_key f v0 (JStr k) ((fun kv : string * V => (JStr kv.1, kv.2)) <$> d)
  = (fun kv : string * V => (JStr kv.1, kv.2)) <$> odict.alter f k (odict.setdefault k v0 d).
Proof.
  intros Hsame. rewrite odict_facts.alter_setdefault. unfold odict.keys.
  induction d as [|[k' v'] d IH].
  - destruct (decide (k ∈ ([] : list (string * V)).*1)) as [Hin|]; [|done].
    by apply elem_of_nil in Hin.
  - rewrite !fmap_cons. simpl. rewrite Hsame.
    destruct (decide (k' = k)) as [->|Hne].
    + rewrite bool_decide_eq_true_2 by done.
      destruct (decide (k ∈ k :: d.*1)) as [|Hnin]; [by rewrite fmap_cons|].
      exfalso. apply Hnin, list_elem_of_here.
    + rewrite bool_decide_eq_false_2 by done. rewrite IH.
      destruct (decide (k ∈ d.*1)) as [Hin|Hnin], (decide (k ∈ k' :: d.*1)) as [Hin'|Hnin'].
      * by rewrite ?fmap_cons.
      * exfalso. by apply Hnin', list_elem_of_further.
      * apply elem_of_cons in Hin' as [->|Hin']; done.
      * by rewrite fmap_cons.
Qed.

Lemma fmap_alter {K V W : Type} `{EqDecision K} (g : V -> W) (f : V -> V) (f' : W -> W)
    (k : K) (d : list (K * V)) :
  (forall v, g (f v) = f' (g v)) ->
  (fun kv : K * V => (kv.1, g kv.2)) <$> odict.alter f k d
  = odict.alter f' k ((fun kv : K * V => (kv.1, g kv.2)) <$> d).
Proof.
  intros Hg. induction d as [|[k' v'] d IH]; [done|].
  rewrite !fmap_cons. simpl. destruct (decide (k' = k)).
  - rewrite fmap_cons. simpl. by rewrite Hg.
  - rewrite fmap_cons. simpl. by rewrite IH.
Qed.

Lemma fmap_setdefault {K V W : Type} `{EqDecision K} (g : V -> W) (k : K) (v : V)
    (d : list (K * V)) :
  (fun kv : K * V => (kv.1, g kv.2)) <$> odict.setdefault k v d
  = odict.setdefault k (g v) ((fun kv : K * V => (kv.1, g kv.2)) <$> d).
Proof.
  assert (Hget : odict.get k ((fun kv : K * V => (kv.1, g kv.2)) <$> d) = g <$> odict.get k d).
  { induction d as [|[k' v'] d IH]; [done|]. rewrite fmap_cons. simpl.
    by destruct (decide (k' = k)). }
  unfold odict.setdefault. rewrite Hget. destruct (odict.get k d); simpl; [done|].
  by rewrite fmap_app.
Qed.

Lemma any_index_alter (f : relobjs -> relobjs)
    (f' : list (string * list (json * list occurrence))
          -> list (string * list (json * list occurrence)))
    (rt : reltype) (idx : per_reltype relobjs) :
  (forall d, (fun ks : string * subjects => (ks.1, any_subjects ks.2)) <$> f d
             = f' ((fun ks : string * subjects => (ks.1, any_subjects ks.2)) <$> d)) ->
  any_index (pr_alter f rt idx) = pr_alter f' rt (any_index idx).
Proof. intros Hf. destruct rt; unfold any_index; simpl; by rewrite Hf. Qed.

Lemma reify_collected_relation_strings (percent_s_of : json -> string)
    (hashable : json -> bool) (same_key : json -> json -> bool)
    (idx : per_reltype relobjs) (c : collected) (rel : relation_tuple) :
  (forall s, percent_s_of (JStr s) = s) -> (forall s, hashable (JStr s) = true) ->
  (forall a b : string, same_key (JStr a) (JStr b) = bool_decide (a = b)) ->
  string_names c = Some rel ->
  reify_collected_relation percent_s_of hashable same_key (any_index idx) c
  = Ok (any_index (reify_relation idx rel)).
Proof.
  intros Hfmt Hhash Hsame Hc.
  destruct c as [[[rel0 rel1] rel2] rel3].
  destruct rel1 as [| | |sub| |], rel2 as [| | |obj| |]; try done.
  injection Hc as <-. unfold reify_collected_relation, reify_relation.
  rewrite Hhash, Hfmt. f_equal. rewrite !pr_alter_compose. symmetry.
  apply any_index_alter. intros d.
  rewrite (fmap_alter any_subjects _
             (setdefault_then same_key
                (fun l => l ++ ((fun e : evidence_tuple =>
                                   {| pmid := e.1.1; sha := e.1.2; text := e.2 |}) <$> rel3))
                [] (JStr sub))).
  - by rewrite (fmap_setdefault any_subjects).
  - intros subjs. unfold any_subjects. symmetry. by apply setdefault_then_strings.
Qed.

Lemma reify_collected_strings (percent_s_of : json -> string)
    (hashable : json -> bool) (same_key : json -> json -> bool)
    (raw : list collected) (rels : list relation_tuple) :
  (forall s, percent_s_of (JStr s) = s) -> (forall s, hashable (JStr s) = true) ->
  (forall a b : string, same_key (JStr a) (JStr b) = bool_decide (a = b)) ->
  mapM string_names raw = Some rels ->
  reify_collected percent_s_of hashable same_key raw = Ok (any_index (reify_relations rels)).
Proof.
  intros Hfmt Hhash Hsame Hm. apply mapM_Some_1 in Hm.
  unfold reify_collected, reify_relations.
  change (pr_init []) with (any_index (pr_init [])) at 1.
  generalize (pr_init ([] : relobjs)).
  induction Hm as [|c rel raw rels Hc _ IH]; simpl; intros idx; [done|].
  rewrite (reify_collected_relation_strings _ _ _ idx c rel) by done. apply IH.
Qed.

(** C7: the relations collected are, in the order of the records examined,
    the relations of the records that have one: a record of one of the four
    types with both names is collected with its type, its names and the
    tuples of those of its evidence entries that resolve, in their order,
    the entries that do not resolve being left out one by one, and it is left
    out itself only when none resolves.  So no relation collected has empty
    evidence, and no list of occurrences of the reified index is empty,
    whatever the names are and however names that are no strings are
    formatted and compared. *)
Theorem collect_relations_evidence (results : list json) (metadata : Metadata) (n : Z)
    (raw : list collected) :
  collect_relations results metadata n = Ok raw ->
  raw = omap (relation_of metadata) (slice_to n results) /\
  Forall (fun c : collected => c.2 <> []) raw /\
  (forall percent_s_of hashable same_key idx rt key subjs subj occs,
     reify_collected percent_s_of hashable same_key raw = Ok idx ->
     (key, subjs) ∈ pr_get idx rt -> (subj, occs) ∈ subjs -> occs <> []) /\
  (forall rels rt key subjs subj occs,
     mapM string_names raw = Some rels ->
     (key, subjs) ∈ pr_get (reify_relations rels) rt -> (subj, occs) ∈ subjs ->
     occs <> []).
Proof.
  intros Hcollect. unfold collect_relations in Hcollect.
  apply collect_loop_relation_of in Hcollect. simpl in Hcollect.
  assert (Hraw : Forall (fun c : collected => c.2 <> []) raw).
  { subst raw. apply Forall_forall. intros c Hc.
    apply list_elem_of_omap in Hc as (result & _ & Hc). by apply relation_of_evidence in Hc. }
  split; [done|]. split; [done|]. split.
  - intros percent_s_of hashable same_key idx rt key subjs subj occs Hreify Hkey Hsubj.
    assert (Hocc : forall rt',
      Forall (fun ks : string * list (json * list occurrence) =>
                Forall (fun kv => kv.2 <> []) ks.2) (pr_get idx rt')).
    { unfold reify_collected in Hreify.
      refine (for_each_invariant
                (fun i : per_reltype (list (string * list (json * list occurrence))) =>
                   forall rt', Forall (fun ks : string * list (json * list occurrence) =>
                                         Forall (fun kv => kv.2 <> []) ks.2) (pr_get i rt'))
                _ _ _ _ _ _ Hreify).
      - intros rt'. rewrite pr_get_init. constructor.
      - intros idx1 idx2 rel Hrel Hidx1 Hstep.
        eapply reify_collected_relation_occupied; [|exact Hidx1|exact Hstep].
        rewrite Forall_forall in Hraw. by apply Hraw. }
    specialize (Hocc rt). rewrite Forall_forall in Hocc.
    specialize (Hocc _ Hkey). rewrite Forall_forall in Hocc. apply (Hocc _ Hsubj).
  - intros rels rt key subjs subj occs Hm Hkey Hsubj.
    assert (Hocc : occupied (reify_relations rels)).
    { apply reify_relations_occupied. by apply (string_names_evidence raw). }
    specialize (Hocc rt). rewrite Forall_forall in Hocc.
    specialize (Hocc _ Hkey). rewrite Forall_forall in Hocc. apply (Hocc _ Hsubj).
Qed.

Lemma collect_relations_evidence_witness :
  exists raw,
    collect_relations sample_results sample_metadata collect_relations_default_n = Ok raw /\
    raw = omap (relation_of sample_metadata)
            (slice_to collect_relations_default_n sample_results) /\
    Forall (fun c : collected => c.2 <> []) raw /\
    (forall percent_s_of hashable same_key idx rt key subjs subj occs,
       reify_collected percent_s_of hashable same_key raw = Ok idx ->
       (key, subjs) ∈ pr_get idx rt -> (subj, occs) ∈ subjs -> occs <> []) /\
    (forall rels rt key subjs subj occs,
       mapM string_names raw = Some rels ->
       (key, subjs) ∈ pr_get (reify_relations rels) rt -> (subj, occs) ∈ subjs ->
       occs <> []).
Proof.
  eexists. split; [vm_compute; reflexivity|].
  apply (collect_relations_evidence sample_results sample_metadata collect_relations_default_n).
  vm_compute. reflexivity.
Defined.

(** Of the six sample records two relations are collected, the first
    without its two entries that do not resolve. *)
Example sample_results_collected :
  (fun raw : list collected =>
     (fun c : collected => (c.1.1.1, c.1.1.2, c.1.2, length c.2)) <$> raw)
    <$> (match collect_relations sample_results sample_metadata collect_relations_default_n with
         | Ok raw => Some raw
         | Raise _ => None
         end)
  = Some [ (IncreaseAmount, JStr "IL12", JStr "TNF", 25);
           (IncreaseAmount, JStr "IL6", JStr "TNF", 1) ].
Proof. vm_compute. reflexivity. Qed.

Lemma collect_evidence_entry_ok (metadata : Metadata) (evidence : list evidence_tuple)
    (e : json) :
  entry_ok e = true -> exists evidence', collect_evidence_entry metadata evidence e = Ok evidence'.
Proof.
  unfold entry_ok, collect_evidence_entry.
  destruct e as [| | | |items|d]; simpl; try done.
  destruct (default JNull (odict.get "pmid" d)) as [| | |p| |]; simpl; try done; eauto.
  destruct (pmid2sha metadata !! p); eauto.
Qed.

Lemma collect_evidence_ok (metadata : Metadata) (entries : list json)
    (evidence : list evidence_tuple) :
  forallb entry_ok entries = true ->
  exists evidence', for_each (collect_evidence_entry metadata) entries evidence = Ok evidence'.
Proof.
  revert evidence. induction entries as [|e entries IH]; simpl; intros evidence; [by eauto|].
  intros [He Hrest]%andb_true_iff.
  destruct (collect_evidence_entry_ok metadata evidence e He) as [ev1 ->]. by apply IH.
Qed.

Lemma collect_record_ok (metadata : Metadata) (relations : list collected) (result : json) :
  well_shaped result = true ->
  exists relations', collect_record metadata relations result = Ok relations'.
Proof.
  unfold well_shaped, collect_record, subject_and_object, getitem.
  destruct result as [| | | |items|d]; try done.
  destruct (odict.get "type" d) as [ty|]; simpl; [|done].
  destruct (target_relation ty) as [rt|]; [|by eauto].
  destruct (odict.get "subj" d) as [[| | | | |s]|]; simpl; try done; [|by eauto].
  destruct (odict.get "name" s) as [sub|]; simpl; [|by eauto].
  destruct (odict.get "obj" d) as [[| | | | |o]|]; simpl; try done; [|by eauto].
  destruct (odict.get "name" o) as [obj|]; simpl; [|by eauto].
  destruct (odict.get "evidence" d) as [[| | | |es|]|]; simpl; try done.
  intros Hes. destruct (collect_evidence_ok metadata es [] Hes) as [evidence ->]. simpl.
  destruct evidence; eauto.
Qed.

(** C4, as amended: when each of the records examined is a dictionary with a
    ['type'] and, if the type is one of the four, has dictionaries under
    ['subj'] and ['obj'] where they are present and, where both have a
    ['name'], a list under ['evidence'] of dictionaries with a hashable
    ['pmid'], the collector returns a list of relations: records of another
    type or without a subject or object name are skipped and entries that do
    not resolve are dropped, without an exception. *)
Theorem collect_relations_returns (results : list json) (metadata : Metadata) (n : Z) :
  Forall (fun result => well_shaped result = true) (slice_to n results) ->
  exists relations, collect_relations results metadata n = Ok relations.
Proof.
  unfold collect_relations. generalize (slice_to n results) ([] : list collected).
  intros l. induction l as [|result l IH]; simpl; intros relations Hall; [by eauto|].
  apply Forall_cons in Hall as [Hres Hall].
  destruct (collect_record_ok metadata relations result Hres) as [relations' ->].
  by apply IH.
Qed.

Lemma collect_relations_returns_witness :
  Forall (fun result => well_shaped result = true)
         (slice_to collect_relations_default_n sample_results) /\
  exists relations,
    collect_relations sample_results sample_metadata collect_relations_default_n = Ok relations.
Proof.
  assert (H : Forall (fun result => well_shaped result = true)
                     (slice_to collect_relations_default_n sample_results)).
  { vm_compute. repeat constructor. }
  split; [exact H|].
  exact (collect_relations_returns sample_results sample_metadata collect_relations_default_n H).
Defined.

(** C4, as it is stated, fails: a record of a recognised type with both
    names and no ['evidence'] makes the collector raise [KeyError]. *)
Lemma collect_relations_raises :
  collect_relations [record_without_evidence] sample_metadata collect_relations_default_n
    = Raise KeyError /\
  ~ (forall (results : list json) (metadata : Metadata) (n : Z),
       exists relations, collect_relations results metadata n = Ok relations).
Proof.
  assert (H : collect_relations [record_without_evidence] sample_metadata
                collect_relations_default_n = Raise KeyError) by (vm_compute; reflexivity).
  split; [exact H|]. intros Hclaim.
  destruct (Hclaim [record_without_evidence] sample_metadata collect_relations_default_n)
    as [relations Hok].
  rewrite H in Hok. discriminate.
Qed.

(** ** The run of the importer *)

Lemma slice_to_app {A : Type} (n : Z) (l extra : list A) :
  (0 <= n <= Z.of_nat (length l))%Z -> slice_to n (l ++ extra) = slice_to n l.
Proof.
  intros Hn. unfold slice_to. destruct (n <? 0)%Z eqn:Hneg; [lia|].
  apply take_app_le. lia.
Qed.

(** C10: [collect_relations] examines the first [n] records only, [n] being
    100000 when it is not given, and [convert] does not give it: whatever
    follows the first 100000 records changes neither the relations collected
    nor the indexes that [convert] builds. *)
Theorem collect_relations_cap (results extra : list json) (metadata : Metadata) :
  (collect_relations_default_n <= Z.of_nat (length results))%Z ->
  collect_relations_default_n = 100000%Z /\
  collect_relations (results ++ extra) metadata collect_relations_default_n
    = collect_relations results metadata collect_relations_default_n /\
  run_map indexes_of (RelationImporter.convert (RelationImporter.init metadata (results ++ extra)))
    = run_map indexes_of (RelationImporter.convert (RelationImporter.init metadata results)).
Proof.
  intros Hlen.
  assert (Hcap : collect_relations (results ++ extra) metadata collect_relations_default_n
                 = collect_relations results metadata collect_relations_default_n).
  { unfold collect_relations. rewrite slice_to_app; [done|].
    unfold collect_relations_default_n in *. lia. }
  split; [done|]. split; [done|].
  unfold RelationImporter.convert. simpl. rewrite Hcap.
  destruct (collect_relations results metadata collect_relations_default_n) as [raw|]; [|done].
  by destruct (mapM string_names raw).
Qed.

Lemma collect_relations_cap_witness :
  (collect_relations_default_n <= Z.of_nat (length skipped_records))%Z /\
  collect_relations_default_n = 100000%Z /\
  collect_relations (skipped_records ++ sample_results) sample_metadata collect_relations_default_n
    = collect_relations skipped_records sample_metadata collect_relations_default_n /\
  run_map indexes_of
    (RelationImporter.convert (RelationImporter.init sample_metadata (skipped_records ++ sample_results)))
    = run_map indexes_of
        (RelationImporter.convert (RelationImporter.init sample_metadata skipped_records)).
Proof.
  assert (H : (collect_relations_default_n <= Z.of_nat (length skipped_records))%Z).
  { unfold skipped_records. rewrite length_replicate. lia. }
  split; [exact H|].
  exact (collect_relations_cap skipped_records sample_results sample_metadata H).
Defined.

(** The sample records yield relations on their own and none behind a
    hundred thousand other records. *)
Example sample_results_behind_the_cap :
  collect_relations (skipped_records ++ sample_results) sample_metadata collect_relations_default_n
    = Ok [] /\
  collect_relations sample_results sample_metadata collect_relations_default_n <> Ok [].
Proof. split; [vm_compute; reflexivity | vm_compute; discriminate]. Qed.

(** The sample run ends, with one significant reified relation. *)
Example sample_run :
  run_map (fun self => odict.keys <$> RelationImporter.inverted_rels self)
    (RelationImporter.convert (RelationImporter.init sample_metadata sample_results))
  = Finished (Some ["d3f7afa8.json"; "fd955af6.json"]).
Proof. vm_compute. reflexivity. Qed.

(** * The code around the engine *)

(** ** The reifier *)

Lemma reify_into_lookup (rel : relation_tuple) (d : relobjs) (key subj : string) :
  odict.get key (reify_into rel d) ≫= odict.get subj =
  if decide (reified_key rel = key /\ rel.1.1.2 = subj)
  then Some (default [] (odict.get key d ≫= odict.get subj) ++ occurrences_of rel)
  else odict.get key d ≫= odict.get subj.
Proof.
  unfold reify_into. fold (reified_key rel). fold (occurrences_of rel).
  rewrite get_alter, get_setdefault.
  destruct (decide (reified_key rel = key)) as [Hk|Hk];
    destruct (odict.get key d) as [subjs|]; simpl;
    rewrite ?get_alter, ?get_setdefault; simpl;
    repeat case_decide; try tauto; try done.
  all: try (destruct (odict.get subj _); simpl; done).
  - simpl. destruct H0 as [_ <-]. by rewrite decide_True.
  - simpl. rewrite decide_False; [done | tauto].
Qed.

Lemma reify_relation_lookup (idx : per_reltype relobjs) (rel : relation_tuple)
    (rt : reltype) (key subj : string) :
  lookup_occurrences (reify_relation idx rel) rt key subj =
  if decide (rel.1.1.1 = rt /\ reified_key rel = key /\ rel.1.1.2 = subj)
  then Some (default [] (lookup_occurrences idx rt key subj) ++ occurrences_of rel)
  else lookup_occurrences idx rt key subj.
Proof.
  unfold lookup_occurrences. rewrite reify_relation_alter, pr_get_alter.
  destruct (decide (rel.1.1.1 = rt)) as [Hrt|Hrt].
  - rewrite reify_into_lookup.
    destruct (decide (reified_key rel = key /\ rel.1.1.2 = subj)) as [H|H].
    + by rewrite decide_True by tauto.
    + by rewrite decide_False by tauto.
  - by rewrite decide_False by tauto.
Qed.

Lemma reify_loop_lookup (rels : list relation_tuple) (idx : per_reltype relobjs)
    (rt : reltype) (key subj : string) :
  lookup_occurrences (fold_left reify_relation rels idx) rt key subj =
  match reified_under rt key subj rels with
  | [] => lookup_occurrences idx rt key subj
  | found =>
      Some (default [] (lookup_occurrences idx rt key subj) ++ mjoin (occurrences_of <$> found))
  end.
Proof.
  revert idx. induction rels as [|rel rels IH]; simpl; intros idx; [done|].
  rewrite IH, reify_relation_lookup. unfold reified_under.
  destruct (decide (rel.1.1.1 = rt /\ reified_key rel = key /\ rel.1.1.2 = subj)) as [H|H].
  - rewrite filter_cons_True by done. simpl.
    destruct (filter _ rels) as [|r rs]; simpl.
    + by rewrite app_nil_r.
    + by rewrite <- app_assoc.
  - by rewrite filter_cons_False by done.
Qed.

Lemma reify_relations_found (rels : list relation_tuple) (rt : reltype) (key subj : string) :
  lookup_occurrences (reify_relations rels) rt key subj =
  match reified_under rt key subj rels with
  | [] => None
  | found => Some (mjoin (occurrences_of <$> found))
  end.
Proof.
  unfold reify_relations. rewrite reify_loop_lookup.
  unfold lookup_occurrences. by rewrite pr_get_init.
Qed.

(** X2: the occurrences stored under a relation type, a reified relation
    and a subject are those of the relations of that type reified under that
    key with that subject, joined in the order of the relations and without
    removing repetitions; where there is no such relation nothing is
    stored. *)
Theorem reify_relations_lookup (rels : list relation_tuple) (rt : reltype) (key subj : string) :
  lookup_occurrences (reify_relations rels) rt key subj =
  match reified_under rt key subj rels with
  | [] => None
  | found => Some (mjoin (occurrences_of <$> found))
  end.
Proof. exact (reify_relations_found rels rt key subj). Qed.

Lemma keys_reify_into (rel : relation_tuple) (d : relobjs) :
  odict.keys (reify_into rel d) =
  if decide (reified_key rel ∈ odict.keys d) then odict.keys d
  else odict.keys d ++ [reified_key rel].
Proof.
  unfold reify_into. fold (reified_key rel).
  by rewrite odict_facts.keys_alter, odict_facts.keys_setdefault.
Qed.

Lemma reify_relations_keys_source (rels : list relation_tuple) (rt : reltype) (key : string) :
  key ∈ odict.keys (pr_get (reify_relations rels) rt) ->
  exists rel, rel ∈ rels /\ rel.1.1.1 = rt /\ key = reified_key rel.
Proof.
  revert rt key. unfold reify_relations. apply fold_left_invariant.
  - intros rt key. rewrite pr_get_init. intros Hin. by apply elem_of_nil in Hin.
  - intros idx rel Hrel IH rt key. rewrite reify_relation_alter, pr_get_alter.
    destruct (decide (rel.1.1.1 = rt)) as [Hrt|Hrt]; [|by apply IH].
    rewrite keys_reify_into.
    destruct (decide (reified_key rel ∈ odict.keys (pr_get idx rt))); [by apply IH|].
    intros [Hin|Hin]%elem_of_app; [by apply IH|].
    apply list_elem_of_singleton in Hin as ->. by exists rel.
Qed.

(** X1: the keys of the reified index under a relation type are the names
    of the objects of the relations of that type, each followed by a hyphen
    and the role of the type in [RELTYPES]. *)
Theorem reify_relations_keys (rels : list relation_tuple) (rt : reltype) (key : string) :
  key ∈ odict.keys (pr_get (reify_relations rels) rt) <->
  exists rel role,
    rel ∈ rels /\ rel.1.1.1 = rt /\
    translate_reltype_into_role rt = Some role /\ key = rel.1.2 +:+ "-" +:+ role.
Proof.
  assert (Hrole : forall rel : relation_tuple, rel.1.1.1 = rt ->
    exists role, translate_reltype_into_role rt = Some role /\
                 reified_key rel = rel.1.2 +:+ "-" +:+ role).
  { intros rel <-. unfold reified_key. destruct (rel.1.1.1); by eexists. }
  split.
  - intros (rel & Hin & Hrt & ->)%reify_relations_keys_source.
    destruct (Hrole rel Hrt) as (role & Hr & Hkey). by exists rel, role.
  - intros (rel & role & Hin & Hrt & Hr & ->).
    destruct (Hrole rel Hrt) as (role' & Hr' & Hkey).
    assert (role' = role) as -> by congruence. rewrite <- Hkey.
    apply odict_facts.get_is_Some.
    pose proof (reify_relations_found rels rt (reified_key rel) rel.1.1.2) as Hl.
    unfold lookup_occurrences, reified_under in Hl.
    destruct (filter _ rels) as [|r rs] eqn:Hf.
    + assert (Hrel : rel ∈ filter
        (fun rel' : relation_tuple =>
           rel'.1.1.1 = rt /\ reified_key rel' = reified_key rel /\ rel'.1.1.2 = rel.1.1.2) rels)
        by by apply list_elem_of_filter.
      rewrite Hf in Hrel. by apply elem_of_nil in Hrel.
    + destruct (odict.get (reified_key rel) (pr_get (reify_relations rels) rt)); [by eauto|done].
Qed.

Section totals.
Context {K V : Type} `{EqDecision K}.

Lemma sum_values_alter (f : V -> nat) (g : V -> V) (c : nat) (k : K) (d : list (K * V)) :
  (forall v, f (g v) = f v + c) -> k ∈ odict.keys d ->
  sum_list ((fun kv : K * V => f kv.2) <$> odict.alter g k d)
  = sum_list ((fun kv : K * V => f kv.2) <$> d) + c.
Proof.
  intros Hg. unfold odict.keys. induction d as [|[k' v'] d IH]; csimpl.
  - intros Hin. by apply elem_of_nil in Hin.
  - intros Hin. destruct (decide (k' = k)) as [->|Hne]; csimpl.
    + rewrite Hg. lia.
    + apply elem_of_cons in Hin as [Heq|Hin]; [congruence|]. rewrite IH by done. lia.
Qed.

Lemma sum_values_upsert (f : V -> nat) (g : V -> V) (c : nat) (k : K) (v0 : V)
    (d : list (K * V)) :
  (forall v, f (g v) = f v + c) -> f v0 = 0 ->
  sum_list ((fun kv : K * V => f kv.2) <$> odict.alter g k (odict.setdefault k v0 d))
  = sum_list ((fun kv : K * V => f kv.2) <$> d) + c.
Proof.
  intros Hg H0. rewrite odict_facts.alter_setdefault.
  destruct (decide (k ∈ odict.keys d)); [by apply sum_values_alter|].
  rewrite fmap_app, sum_list_with_app. csimpl. rewrite Hg, H0. lia.
Qed.
End totals.

Lemma size_of_values (subjs : subjects) :
  size_of (odict.values subjs)
  = sum_list ((fun kv : string * list occurrence => length kv.2) <$> subjs).
Proof.
  unfold size_of, odict.values. induction subjs as [|[k v] subjs IH]; csimpl; [done|].
  by rewrite IH.
Qed.

Lemma relobjs_size_reify_into (rel : relation_tuple) (d : relobjs) :
  relobjs_size (reify_into rel d) = relobjs_size d + length rel.2.
Proof.
  unfold relobjs_size, reify_into.
  apply (sum_values_upsert (fun subjs : subjects => size_of (odict.values subjs))); [|done].
  intros subjs. rewrite !size_of_values.
  apply (sum_values_upsert (fun l : list occurrence => length l)); [|done].
  intros l. by rewrite length_app, length_fmap.
Qed.

Lemma index_size_alter (f : relobjs -> relobjs) (rt : reltype) (idx : per_reltype relobjs)
    (c : nat) :
  relobjs_size (f (pr_get idx rt)) = relobjs_size (pr_get idx rt) + c ->
  index_size (pr_alter f rt idx) = index_size idx + c.
Proof.
  unfold index_size, odict.keys. destruct idx, rt; csimpl; intros ->; lia.
Qed.

(** X3: the reifier keeps every evidence tuple: the occurrences of the
    reified index are as many as the evidence tuples of the relations. *)
Theorem reify_relations_size (rels : list relation_tuple) :
  index_size (reify_relations rels) = sum_list ((fun rel : relation_tuple => length rel.2) <$> rels).
Proof.
  unfold reify_relations.
  assert (Hloop : forall idx,
    index_size (fold_left reify_relation rels idx)
    = index_size idx + sum_list ((fun rel : relation_tuple => length rel.2) <$> rels)).
  { induction rels as [|rel rels IH]; csimpl; intros idx; [lia|].
    rewrite IH, reify_relation_alter.
    rewrite (index_size_alter _ _ _ (length rel.2)); [lia|].
    apply relobjs_size_reify_into. }
  by rewrite Hloop.
Qed.

(** ** The filter *)

(** X4: the keys of the filtered index under a relation type are the keys
    of the reified index whose subjects are big enough, in the order they
    have there. *)
Theorem filter_relobjs_keys (reified : per_reltype relobjs) (rt : reltype) :
  wf_index reified ->
  odict.keys (pr_get (filter_relobjs reified) rt)
  = odict.keys (filter (fun ks : string * subjects => is_big (odict.values ks.2) rt = true)
                       (pr_get reified rt)).
Proof.
  intros Hwf. rewrite filter_relobjs_get by done. unfold significant, odict.keys.
  induction (pr_get reified rt) as [|[k s] d IH]; csimpl; [done|].
  destruct (is_big (odict.values s) rt) eqn:Hbig; csimpl.
  - rewrite filter_cons_True by done. csimpl. by rewrite IH.
  - rewrite filter_cons_False; [done|]. simpl. congruence.
Qed.

Lemma filter_relobjs_keys_witness :
  wf_index nine /\
  odict.keys (pr_get (filter_relobjs nine) IncreaseAmount)
  = odict.keys (filter (fun ks : string * subjects =>
                          is_big (odict.values ks.2) IncreaseAmount = true)
                       (pr_get nine IncreaseAmount)).
Proof.
  assert (Hwf : wf_index nine) by compute_done.
  split; [exact Hwf|]. exact (filter_relobjs_keys nine IncreaseAmount Hwf).
Defined.

(** ** Lists kept under a key *)

Section appends.
Context {K V : Type} `{EqDecision K}.

Lemma odict_append_lookup (k k' : K) (v : V) (d : list (K * list V)) :
  odict.get k' (odict_append k v d) =
  if decide (k = k') then Some (default [] (odict.get k' d) ++ [v]) else odict.get k' d.
Proof.
  unfold odict_append. rewrite get_alter, get_setdefault.
  by destruct (decide (k = k')), (odict.get k' d).
Qed.

Lemma append_loop_lookup (l : list (K * V)) (d : list (K * list V)) (k : K) :
  odict.get k (fold_left (fun d x => odict_append x.1 x.2 d) l d) =
  match odict.get k d with
  | Some vs => Some (vs ++ (filter (fun x : K * V => x.1 = k) l).*2)
  | None =>
      match (filter (fun x : K * V => x.1 = k) l).*2 with
      | [] => None
      | vs => Some vs
      end
  end.
Proof.
  revert d. induction l as [|x l IH]; simpl; intros d.
  - destruct (odict.get k d); [by rewrite app_nil_r | done].
  - rewrite IH, odict_append_lookup.
    destruct (decide (x.1 = k)) as [Heq|Hne].
    + rewrite filter_cons_True by done. csimpl.
      destruct (odict.get k d); simpl; [by rewrite <- app_assoc | done].
    + by rewrite filter_cons_False by done.
Qed.

Lemma append_loop_size (l : list (K * V)) (d : list (K * list V)) :
  sum_list ((fun kv : K * list V => length kv.2)
              <$> fold_left (fun d x => odict_append x.1 x.2 d) l d)
  = sum_list ((fun kv : K * list V => length kv.2) <$> d) + length l.
Proof.
  revert d. induction l as [|x l IH]; simpl; intros d; [lia|].
  rewrite IH. unfold odict_append.
  rewrite (sum_values_upsert (fun vs : list V => length vs) _ 1); [lia| |done].
  intros vs. rewrite length_app. simpl. lia.
Qed.
End appends.

(** ** The inverter and the per-file output *)

Lemma length_bind {A B : Type} (f : A -> list B) (l : list A) :
  length (l ≫= f) = sum_list ((fun x => length (f x)) <$> l).
Proof. induction l as [|x l IH]; csimpl; [done|]. by rewrite length_app, IH. Qed.

Lemma length_reachable_in (items : list (string * entry)) :
  length (reachable_in items)
  = sum_list ((fun re : string * entry => size_of (odict.values (data re.2))) <$> items).
Proof.
  unfold reachable_in. rewrite length_bind. f_equal. apply list_fmap_ext.
  intros i [relobj e] _. simpl. rewrite length_bind, size_of_values. f_equal.
  apply list_fmap_ext. intros j [subj occs] _. simpl. by rewrite length_fmap.
Qed.

Lemma invert_loop_append (l : list (string * (string * string))) (inv : inverted) :
  fold_left invert_pair l inv = fold_left (fun d x => odict_append x.1 x.2 d) l inv.
Proof. done. Qed.

(** X5: the inverter removes no repetition: the pairs of the inverted index
    are as many as the occurrences kept by the filtered index. *)
Theorem invert_filtered_relobjs_size (reified : per_reltype relobjs)
    (filtered : per_reltype (list (string * entry))) :
  sum_list ((fun kv : string * list (string * string) => length kv.2)
              <$> invert_filtered_relobjs reified filtered)
  = kept_size filtered.
Proof.
  rewrite invert_filtered_relobjs_flat, invert_loop_append, append_loop_size. simpl.
  unfold reachable, kept_size. rewrite length_bind. f_equal. apply list_fmap_ext.
  intros i rt _. apply length_reachable_in.
Qed.

Lemma relations_of_file_inverted (reified : per_reltype relobjs)
    (filtered : per_reltype (list (string * entry))) (fname : string) :
  RelationImporter.relations_of_file (invert_filtered_relobjs reified filtered) fname
  = pairs_under fname (reachable filtered).
Proof.
  unfold RelationImporter.relations_of_file. rewrite invert_filtered_relobjs_lookup.
  by destruct (pairs_under fname (reachable filtered)).
Qed.

Lemma subjects_under_pairs (fname relobj : string) (l : list (string * (string * string))) :
  (filter (fun p : string * string => p.1 = relobj) (pairs_under fname l)).*2
  = subjects_under fname relobj l.
Proof.
  unfold pairs_under, subjects_under. induction l as [|[f [r s]] l IH]; [done|].
  destruct (decide (f = fname)) as [Hf|Hf].
  - rewrite (filter_cons_True (fun x : string * (string * string) => x.1 = fname)) by done.
    csimpl. destruct (decide (r = relobj)) as [Hr|Hr].
    + rewrite !filter_cons_True by done. csimpl. by rewrite IH.
    + rewrite !filter_cons_False by (simpl; tauto). done.
  - rewrite (filter_cons_False (fun x : string * (string * string) => x.1 = fname)) by done.
    rewrite filter_cons_False by (simpl; tauto). done.
Qed.

Lemma convert_file_append (inv : inverted) (fname : string)
    (lif_metadata : list (string * list string)) :
  RelationImporter.convert_file inv fname lif_metadata
  = fold_left (fun d (x : string * string) => odict_append x.1 x.2 d)
      (RelationImporter.relations_of_file inv fname) lif_metadata.
Proof.
  unfold RelationImporter.convert_file. apply fold_left_ext. by intros md [relobj subj].
Qed.

(** X6: in the metadata that [convert_file] fills for a file, starting from
    metadata without relations, a reified relation is a key exactly when an
    occurrence kept under it has the ['sha'] the file is named after, and its
    list names the subject of each such occurrence, in the order of the
    filtered index and once for each occurrence. *)
Theorem convert_file_lookup (reified : per_reltype relobjs)
    (filtered : per_reltype (list (string * entry))) (fname relobj : string) :
  odict.get relobj
    (RelationImporter.convert_file (invert_filtered_relobjs reified filtered) fname [])
  = match subjects_under fname relobj (reachable filtered) with
    | [] => None
    | subjs => Some subjs
    end.
Proof.
  rewrite convert_file_append, append_loop_lookup. simpl.
  by rewrite relations_of_file_inverted, subjects_under_pairs.
Qed.

(** The file of the sample with tied counts: ten times [IFNG], then three
    times [IL2]. *)
Example tied_file_metadata :
  RelationImporter.convert_file (invert_filtered_relobjs tied (filter_relobjs tied))
    "fd955af6.json" []
  = [("TNF-decreaser", replicate 10 "IFNG" ++ replicate 3 "IL2")].
Proof. vm_compute; reflexivity. Qed.

(** ** [index_by_fname] *)

Lemma index_by_fname_flat (relations : list collected) :
  index_by_fname relations
  = fold_left (fun d (x : string * collected) => odict_append x.1 x.2 d)
      (relations ≫= fun rel : collected => (fun e : evidence_tuple => (e.1.2, rel)) <$> rel.2)
      [].
Proof.
  unfold index_by_fname. rewrite fold_left_bind. apply fold_left_ext.
  intros idx rel. by rewrite fold_left_fmap.
Qed.

Lemma listed_under_flat (s : string) (relations : list collected) :
  (filter (fun x : string * collected => x.1 = s)
     (relations ≫= fun rel : collected => (fun e : evidence_tuple => (e.1.2, rel)) <$> rel.2)).*2
  = listed_under s relations.
Proof.
  unfold listed_under. induction relations as [|rel relations IH]; csimpl; [done|].
  rewrite filter_app, fmap_app, IH. f_equal.
  induction rel.2 as [|e es IHe]; csimpl; [done|].
  destruct (decide (e.1.2 = s)) as [He|He].
  - rewrite !filter_cons_True by done. csimpl. by rewrite IHe.
  - by rewrite !filter_cons_False by done.
Qed.

(** X7: [index_by_fname] keys its index by the ['sha'] of the evidence
    tuples themselves, and lists under a ['sha'] each relation once for each
    of its evidence tuples with that ['sha'], in the order of the relations;
    a ['sha'] of no evidence tuple is no key. *)
Theorem index_by_fname_lookup (relations : list collected) (s : string) :
  odict.get s (index_by_fname relations)
  = match listed_under s relations with
    | [] => None
    | listed => Some listed
    end.
Proof.
  rewrite index_by_fname_flat, append_loop_lookup. simpl. by rewrite listed_under_flat.
Qed.

(** ** The collector, record by record *)

Lemma collect_record_accumulates (metadata : Metadata) (relations : list collected)
    (result : json) :
  collect_record metadata relations result =
  match collect_record metadata [] result with
  | Ok added => Ok (relations ++ added)
  | Raise e => Raise e
  end.
Proof.
  unfold collect_record.
  destruct (getitem result "type") as [ty|]; simpl; [|done].
  destruct (target_relation ty) as [rt|]; [|by rewrite app_nil_r].
  destruct (subject_and_object result) as [[sub obj]|[]]; try done; [|by rewrite app_nil_r].
  destruct (getitem result "evidence") as [field|]; simpl; [|done].
  destruct (iterate field) as [entries|]; simpl; [|done].
  destruct (for_each (collect_evidence_entry metadata) entries []) as [[|t ts]|]; simpl;
    [by rewrite app_nil_r | done | done].
Qed.

Lemma collect_loop_accumulates (metadata : Metadata) (l : list json)
    (relations : list collected) :
  for_each (collect_record metadata) l relations =
  match for_each (collect_record metadata) l [] with
  | Ok added => Ok (relations ++ added)
  | Raise e => Raise e
  end.
Proof.
  revert relations. induction l as [|result l IH]; simpl; intros relations.
  - by rewrite app_nil_r.
  - rewrite collect_record_accumulates.
    destruct (collect_record metadata [] result) as [added|]; [|done].
    rewrite IH, (IH added).
    destruct (for_each (collect_record metadata) l []); [by rewrite app_assoc | done].
Qed.

Lemma slice_to_all {A : Type} (n : Z) (l : list A) :
  (Z.of_nat (length l) <= n)%Z -> slice_to n l = l.
Proof.
  intros Hn. unfold slice_to. destruct (n <? 0)%Z eqn:Hneg; [lia|].
  apply take_ge. lia.
Qed.

(** X8: records are collected one by one and in their order: when [n]
    covers them all, the relations of two lists of records put together are
    those of the first followed by those of the second, and an exception
    raised by a record leaves no relations at all. *)
Theorem collect_relations_app (results1 results2 : list json) (metadata : Metadata) (n : Z) :
  (Z.of_nat (length (results1 ++ results2)) <= n)%Z ->
  collect_relations (results1 ++ results2) metadata n =
  match collect_relations results1 metadata n with
  | Ok relations1 =>
      match collect_relations results2 metadata n with
      | Ok relations2 => Ok (relations1 ++ relations2)
      | Raise e => Raise e
      end
  | Raise e => Raise e
  end.
Proof.
  intros Hn. rewrite length_app in Hn. unfold collect_relations.
  rewrite !slice_to_all by (rewrite ?length_app; lia).
  rewrite for_each_app.
  destruct (for_each (collect_record metadata) results1 []) as [relations1|]; [|done].
  apply collect_loop_accumulates.
Qed.

Lemma collect_relations_app_witness :
  (Z.of_nat (length (sample_results ++ [record_without_evidence])) <= collect_relations_default_n)%Z /\
  collect_relations (sample_results ++ [record_without_evidence]) sample_metadata
    collect_relations_default_n =
  match collect_relations sample_results sample_metadata collect_relations_default_n with
  | Ok relations1 =>
      match collect_relations [record_without_evidence] sample_metadata
              collect_relations_default_n with
      | Ok relations2 => Ok (relations1 ++ relations2)
      | Raise e => Raise e
      end
  | Raise e => Raise e
  end.
Proof.
  assert (H : (Z.of_nat (length (sample_results ++ [record_without_evidence]))
               <= collect_relations_default_n)%Z) by (vm_compute; discriminate).
  split; [exact H|].
  exact (collect_relations_app sample_results [record_without_evidence] sample_metadata
           collect_relations_default_n H).
Defined.

Lemma collect_record_length (metadata : Metadata) (relations relations' : list collected)
    (result : json) :
  collect_record metadata relations result = Ok relations' ->
  length relations' <= S (length relations).
Proof.
  intros [->|(rt & sub & obj & entries & -> & _)]%collect_record_adds; [lia|].
  rewrite length_app. simpl. lia.
Qed.

(** X9: a record yields at most one relation, so the relations collected
    are no more than the records examined, and no more than [n] when [n] is
    not negative. *)
Theorem collect_relations_length (results : list json) (metadata : Metadata) (n : Z)
    (relations : list collected) :
  collect_relations results metadata n = Ok relations ->
  length relations <= length results /\ (0 <= n -> Z.of_nat (length relations) <= n)%Z.
Proof.
  unfold collect_relations. intros Hc.
  assert (Hlen : length relations <= length (slice_to n results)).
  { assert (Hgen : forall l acc out,
      for_each (collect_record metadata) l acc = Ok out -> length out <= length acc + length l).
    { induction l as [|r l IH]; simpl; intros acc out.
      - intros [= <-]. lia.
      - destruct (collect_record metadata acc r) as [acc'|] eqn:Hr; [|done].
        intros Hout. apply IH in Hout. apply collect_record_length in Hr. lia. }
    apply Hgen in Hc. simpl in Hc. done. }
  unfold slice_to in Hlen. destruct (n <? 0)%Z eqn:Hneg; rewrite length_take in Hlen; lia.
Qed.

Lemma collect_relations_length_witness :
  exists relations,
    collect_relations sample_results sample_metadata 1 = Ok relations /\
    length relations <= length sample_results /\
    (0 <= 1 -> Z.of_nat (length relations) <= 1)%Z.
Proof.
  eexists. split; [vm_compute; reflexivity|].
  apply (collect_relations_length sample_results sample_metadata 1). vm_compute; reflexivity.
Defined.

(** ** The metadata tables *)

Lemma load_row_Some (t : tables) (fields : list string) :
  is_Some (load_row t fields) <-> 9 <= length fields.
Proof.
  unfold load_row. split.
  - intros [t' Ht].
    destruct (fields !! 8) as [y|] eqn:H8.
    + apply lookup_lt_Some in H8. lia.
    + destruct (fields !! 0), (fields !! 4), (fields !! 5); done.
  - intros Hlen.
    destruct (lookup_lt_is_Some_2 fields 0) as [a ->]; [lia|].
    destruct (lookup_lt_is_Some_2 fields 4) as [b ->]; [lia|].
    destruct (lookup_lt_is_Some_2 fields 5) as [c ->]; [lia|].
    destruct (lookup_lt_is_Some_2 fields 8) as [d ->]; [lia|].
    by eexists.
Qed.

(** X10: loading the metadata succeeds exactly when every row has at least
    nine fields; a shorter row, such as the empty row of a blank line, makes
    it fail. *)
Theorem load_tables_succeeds (rows : list (list string)) :
  is_Some (load_tables rows) <-> Forall (fun fields => 9 <= length fields) rows.
Proof.
  unfold load_tables. generalize {| sha2pmid := ∅; to_sha := ∅ |}.
  induction rows as [|fields rows IH]; simpl; intros t.
  - split; [constructor | by eauto].
  - rewrite Forall_cons, <- (load_row_Some t fields).
    destruct (load_row t fields) as [t'|]; simpl.
    + rewrite IH. split; [by eauto | tauto].
    + split; [intros [? ?]; done | intros [[? ?] _]; done].
Qed.

Lemma load_rows_to_sha (rows : list (list string)) (t t' : tables) (p : string) :
  load_rows rows t = Some t' ->
  to_sha t' !! p =
  match last (shas_with_pmid p rows) with
  | Some s => Some s
  | None => to_sha t !! p
  end.
Proof.
  revert t. induction rows as [|fields rows IH]; simpl; intros t.
  - by intros [= <-].
  - destruct (load_row t fields) as [t1|] eqn:Hrow; [|done].
    intros Hrest. rewrite (IH _ Hrest). unfold shas_with_pmid. csimpl.
    fold (shas_with_pmid p rows).
    unfold load_row in Hrow.
    destruct (fields !! 0) as [s|]; [|done]. destruct (fields !! 4); [|done].
    destruct (fields !! 5) as [q|]; [|done]. destruct (fields !! 8); [|done].
    simpl in Hrow. injection Hrow as <-. simpl.
    destruct (decide (Some q = Some p)) as [[= ->]|Hne]; simpl.
    + rewrite last_cons. destruct (last (shas_with_pmid p rows)); [done|].
      by rewrite lookup_insert_eq.
    + destruct (last (shas_with_pmid p rows)); [done|].
      rewrite lookup_insert_ne; [done | congruence].
Qed.

(** X11: after loading, [get_sha] of an id gives the first field of the
    last row that carries the id in field 5, and nothing when no row
    does. *)
Theorem load_tables_get_sha (rows : list (list string)) (t : tables) (p : string) :
  load_tables rows = Some t ->
  get_sha (metadata_of t) (JStr p) = Ok (last (shas_with_pmid p rows)).
Proof.
  intros Hload. simpl. rewrite (load_rows_to_sha _ _ _ p Hload).
  by destruct (last (shas_with_pmid p rows)).
Qed.

Lemma load_tables_get_sha_witness :
  exists t,
    load_tables sample_rows = Some t /\
    get_sha (metadata_of t) (JStr "") = Ok (last (shas_with_pmid "" sample_rows)).
Proof.
  eexists. split; [vm_compute; reflexivity|].
  apply (load_tables_get_sha sample_rows). vm_compute; reflexivity.
Defined.

(** An empty id resolves, to the last paper that has no PubMed id. *)
Example empty_pmid_resolves : last (shas_with_pmid "" sample_rows) = Some "0a1b2c3d".
Proof. vm_compute; reflexivity. Qed.

(** ** Strings *)

Lemma string_app_cons (x : Ascii.ascii) (a b : string) :
  String x a +:+ b = String x (a +:+ b).
Proof. done. Qed.

Lemma string_app_nil (b : string) : "" +:+ b = b.
Proof. done. Qed.

Lemma string_length_app (a b : string) :
  String.length (a +:+ b) = String.length a + String.length b.
Proof.
  induction a as [|c a IH]; [done|]. rewrite string_app_cons. simpl. by rewrite IH.
Qed.

Lemma string_app_assoc (a b c : string) : (a +:+ b) +:+ c = a +:+ (b +:+ c).
Proof.
  induction a as [|x a IH]; [done|]. rewrite !string_app_cons. by rewrite IH.
Qed.

Lemma string_app_empty_r (a : string) : a +:+ "" = a.
Proof. induction a as [|x a IH]; [done|]. rewrite string_app_cons. by rewrite IH. Qed.

Lemma substring_prefix (b c : string) : String.substring 0 (String.length b) (b +:+ c) = b.
Proof.
  induction b as [|x b IH]; [by destruct c|]. rewrite string_app_cons. simpl. by rewrite IH.
Qed.

Lemma substring_skip (a b : string) (m : nat) :
  String.substring (String.length a) m (a +:+ b) = String.substring 0 m b.
Proof. induction a as [|x a IH]; [done|]. rewrite string_app_cons. simpl. apply IH. Qed.

Lemma substring_app_l (s r : string) (n m : nat) :
  n + m <= String.length s -> String.substring n m (s +:+ r) = String.substring n m s.
Proof.
  revert n m. induction s as [|x s IH]; intros n m Hle.
  - simpl in Hle. assert (n = 0) as -> by lia. assert (m = 0) as -> by lia.
    rewrite string_app_nil. by destruct r.
  - rewrite string_app_cons. simpl in *. destruct n as [|n]; [|apply IH; lia].
    destruct m as [|m]; [done|]. f_equal. apply IH. lia.
Qed.

(** ** The converter *)

Lemma write_paragraphs (l : list string) (c : converter) :
  fold_left write_paragraph l c =
  {| conv_p := conv_p c + String.length (paragraphs_text l);
     conv_text := conv_text c +:+ paragraphs_text l;
     conv_view := conv_view c;
     conv_identifiers := conv_identifiers c |}.
Proof.
  revert c. induction l as [|t l IH]; simpl; intros c.
  - rewrite string_app_empty_r, Nat.add_0_r. by destruct c.
  - rewrite IH. unfold write_paragraph. simpl. f_equal.
    + rewrite !string_length_app. lia.
    + by rewrite !string_app_assoc.
Qed.

Lemma add_docelement_anno_view (ty : string) (p1 p2 : nat) (c : converter) :
  add_docelement_anno ty p1 p2 c =
  {| conv_p := conv_p c;
     conv_text := conv_text c;
     conv_view := conv_view c
       ++ [{| anno_id := "de" +:+ pretty (default 0 (conv_identifiers c !! "de") + 1);
              anno_start := p1; anno_end := p2; section_type := ty |}];
     conv_identifiers :=
       <["de" := default 0 (conv_identifiers c !! "de") + 1]> (conv_identifiers c) |}.
Proof. done. Qed.

Lemma add_section_consistent (state : nat * converter) (section : string * string) :
  consistent state.2 -> consistent (add_section state section).2.
Proof.
  intros [Hp Hid]. unfold add_section. rewrite add_docelement_anno_view. simpl.
  split; simpl.
  - rewrite Hp, !string_length_app. lia.
  - rewrite lookup_insert_eq. simpl. rewrite length_app, Hid. simpl. lia.
Qed.

Lemma add_sections_loop (body_text : list (string * string)) (c : converter) :
  consistent c ->
  let c' := (fold_left add_section body_text (conv_p c, c)).2 in
  consistent c' /\
  conv_text c' = conv_text c +:+ paragraphs_text body_text.*2 /\
  length (conv_view c') = length (conv_view c) + length body_text /\
  (forall i a, conv_view c !! i = Some a -> conv_view c' !! i = Some a) /\
  (forall i h t,
     body_text !! i = Some (h, t) ->
     exists a,
       conv_view c' !! (length (conv_view c) + i) = Some a /\
       anno_id a = "de" +:+ pretty (length (conv_view c) + i + 1) /\
       section_type a = "Paragraph" /\
       anno_end a <= String.length (conv_text c') /\
       span a (conv_text c') = t +:+ line_feeds).
Proof.
  revert c. induction body_text as [|[h0 t0] body IH]; intros c Hc; simpl.
  - repeat split; try apply Hc; try done; rewrite ?string_app_empty_r; try done; lia.
  - set (c1 := (add_section (conv_p c, c) (h0, t0)).2).
    assert (Hc1 : consistent c1) by by apply (add_section_consistent (conv_p c, c)).
    assert (Hstate : add_section (conv_p c, c) (h0, t0) = (conv_p c1, c1)) by done.
    rewrite Hstate. destruct (IH c1 Hc1) as (Hcons & Htext & Hlen & Hold & Hnew).
    clear IH.
    assert (Hview1 : conv_view c1 = conv_view c
      ++ [{| anno_id := "de" +:+ pretty (default 0 (conv_identifiers c !! "de") + 1);
             anno_start := conv_p c;
             anno_end := conv_p c + String.length (t0 +:+ line_feeds);
             section_type := "Paragraph" |}]) by done.
    assert (Htext1 : conv_text c1 = conv_text c +:+ (t0 +:+ line_feeds)) by done.
    destruct Hc as [Hp Hid]. clearbody c1.
    split; [done|]. split; [by rewrite Htext, Htext1, string_app_assoc, string_app_assoc|].
    split; [rewrite Hlen, Hview1, length_app; simpl; lia|].
    split.
    + intros i a Hi. apply Hold. rewrite Hview1. by apply lookup_app_l_Some.
    + intros [|i] h t Hi; simpl in Hi.
      * injection Hi as -> ->. eexists. split.
        { apply Hold. rewrite Hview1, Nat.add_0_r. apply list_lookup_middle. done. }
        simpl. split; [by rewrite Hid, Nat.add_0_r|]. split; [done|].
        rewrite Htext, Htext1. split.
        { rewrite !string_length_app. rewrite Hp. lia. }
        unfold span. simpl. rewrite Hp.
        replace (String.length (conv_text c) + String.length (t +:+ line_feeds)
                 - String.length (conv_text c)) with (String.length (t +:+ line_feeds)) by lia.
        rewrite string_app_assoc, substring_skip. apply substring_prefix.
      * destruct (Hnew i h t Hi) as (a & Ha & Haid & Hty & Hend & Hspan).
        exists a. rewrite Hview1, length_app in Ha, Haid. simpl in Ha, Haid.
        replace (length (conv_view c) + S i) with (length (conv_view c) + 1 + i) by lia.
        replace (length (conv_view c) + S i + 1) with (length (conv_view c) + 1 + i + 1) by lia.
        done.
Qed.

(** X13: a converted document has its text made of the paragraphs of the
    abstract and of the body, each followed by two line feeds, and its
    offset at the end of the text; its first annotation is the abstract,
    from offset 0, and spans the paragraphs of the abstract; then each
    paragraph of the body has its annotation, in order, which spans that
    paragraph and its line feeds; the identifiers are [de1], [de2], and so
    on. *)
Theorem convert_document_spans (abstract : list string) (body_text : list (string * string)) :
  let c := convert_document abstract body_text in
  conv_text c = paragraphs_text abstract +:+ paragraphs_text body_text.*2 /\
  conv_p c = String.length (conv_text c) /\
  length (conv_view c) = S (length body_text) /\
  (exists a,
     conv_view c !! 0 = Some a /\ anno_id a = "de" +:+ pretty 1 /\
     section_type a = "Abstract" /\ anno_start a = 0 /\
     span a (conv_text c) = paragraphs_text abstract) /\
  (forall i h t,
     body_text !! i = Some (h, t) ->
     exists a,
       conv_view c !! (S i) = Some a /\ anno_id a = "de" +:+ pretty (i + 2) /\
       section_type a = "Paragraph" /\ span a (conv_text c) = t +:+ line_feeds).
Proof.
  unfold convert_document, add_sections.
  set (c0 := add_abstract abstract setup).
  assert (Hc0 : c0 =
    {| conv_p := String.length (paragraphs_text abstract);
       conv_text := paragraphs_text abstract;
       conv_view := [{| anno_id := "de" +:+ pretty 1; anno_start := 0;
                        anno_end := String.length (paragraphs_text abstract);
                        section_type := "Abstract" |}];
       conv_identifiers := <["de" := 1]> identifiers_reset |}).
  { unfold c0, add_abstract. by rewrite write_paragraphs, add_docelement_anno_view. }
  clearbody c0.
  assert (Hcons : consistent c0).
  { subst c0. split; simpl; [done|]. by rewrite lookup_insert_eq. }
  destruct (add_sections_loop body_text c0 Hcons) as ([Hp _] & Htext & Hlen & Hold & Hnew).
  subst c0. simpl in *.
  split; [done|]. split; [done|]. split; [done|]. split.
  - eexists. split; [by apply Hold|]. simpl. repeat split; try done.
    unfold span. simpl. rewrite Htext, Nat.sub_0_r. apply substring_prefix.
  - intros i h t Hi. destruct (Hnew i h t Hi) as (a & Ha & Hid & Hty & _ & Hspan).
    exists a. replace (i + 2) with (1 + i + 1) by lia. done.
Qed.

(** A document with one paragraph in its abstract and two in its body. *)
Example convert_document_sample :
  (fun a => (anno_id a, anno_start a, anno_end a, section_type a))
    <$> conv_view (convert_document ["Abstract."] [("Intro", "One."); ("Intro", "Two.")])
  = [("de1", 0, 11, "Abstract"); ("de2", 11, 17, "Paragraph"); ("de3", 17, 23, "Paragraph")].
Proof. vm_compute; reflexivity. Qed.

(** ** Identifiers *)

Lemma new_ids_lookup (tagnames : list string) (identifiers : gmap string nat)
    (i : nat) (tagname : string) :
  tagnames !! i = Some tagname ->
  new_ids tagnames identifiers !! i
  = Some (tagname +:+ pretty (default 0 (identifiers !! tagname)
                              + calls_before tagname i tagnames + 1)).
Proof.
  revert identifiers i. induction tagnames as [|t ts IH]; intros ids i Hi; [done|].
  destruct i as [|i]; simpl in *.
  - injection Hi as ->. unfold calls_before. simpl. by rewrite Nat.add_0_r.
  - rewrite (IH _ _ Hi). unfold calls_before. simpl. do 3 f_equal.
    destruct (decide (t = tagname)) as [->|Hne].
    + rewrite lookup_insert_eq, filter_cons_True by done. simpl. lia.
    + rewrite lookup_insert_ne, filter_cons_False by done. done.
Qed.

Lemma calls_before_lt (tagname : string) (i j : nat) (tagnames : list string) :
  i < j -> tagnames !! i = Some tagname ->
  calls_before tagname i tagnames < calls_before tagname j tagnames.
Proof.
  unfold calls_before. revert i j. induction tagnames as [|t ts IH]; intros i j Hij Hi; [done|].
  destruct j as [|j]; [lia|]. destruct i as [|i]; simpl in *.
  - injection Hi as ->. rewrite filter_cons_True by done. simpl. lia.
  - assert (Hlt := IH i j ltac:(lia) Hi).
    destruct (decide (t = tagname)).
    + rewrite !filter_cons_True by done. simpl. lia.
    + by rewrite !filter_cons_False by done.
Qed.

(** X14: after a reset, each call of [new_id] returns the tag followed by
    the number, in decimal, of the calls made for that tag so far, this one
    included; so two calls for the same tag never return the same
    identifier. *)
Theorem new_ids_distinct (tagnames : list string) (i j : nat) (tagname : string) :
  tagnames !! i = Some tagname -> tagnames !! j = Some tagname -> i < j ->
  new_ids tagnames identifiers_reset !! i
    = Some (tagname +:+ pretty (calls_before tagname i tagnames + 1)) /\
  new_ids tagnames identifiers_reset !! i <> new_ids tagnames identifiers_reset !! j.
Proof.
  intros Hi Hj Hij.
  rewrite (new_ids_lookup _ _ _ _ Hi), (new_ids_lookup _ _ _ _ Hj).
  unfold identifiers_reset. rewrite lookup_empty. simpl. split; [done|].
  intros [= Heq%(inj (String.app tagname))]. apply (inj pretty) in Heq.
  pose proof (calls_before_lt tagname i j tagnames Hij Hi). lia.
Qed.

Lemma new_ids_distinct_witness :
  ["de"; "tok"; "de"] !! 0 = Some "de" /\ ["de"; "tok"; "de"] !! 2 = Some "de" /\ 0 < 2 /\
  new_ids ["de"; "tok"; "de"] identifiers_reset !! 0
    = Some ("de" +:+ pretty (calls_before "de" 0 ["de"; "tok"; "de"] + 1)) /\
  new_ids ["de"; "tok"; "de"] identifiers_reset !! 0
    <> new_ids ["de"; "tok"; "de"] identifiers_reset !! 2.
Proof.
  split; [reflexivity|]. split; [reflexivity|]. split; [lia|].
  apply (new_ids_distinct ["de"; "tok"; "de"] 0 2 "de"); [reflexivity | reflexivity | lia].
Defined.

(** Identifiers of different tags can be the same. *)
Example new_ids_collide :
  new_ids (replicate 11 "a" ++ ["a1"]) identifiers_reset !! 10
  = new_ids (replicate 11 "a" ++ ["a1"]) identifiers_reset !! 11.
Proof. vm_compute; reflexivity. Qed.

(** ** The metadata tables, both ways *)

Lemma load_rows_sha2pmid (rows : list (list string)) (t t' : tables) (s p : string) :
  load_rows rows t = Some t' -> sha2pmid t' !! s = Some p ->
  sha2pmid t !! s = Some p \/
  exists fields, fields ∈ rows /\ fields !! 0 = Some s /\ fields !! 5 = Some p.
Proof.
  revert t. induction rows as [|fields rows IH]; simpl; intros t.
  - intros [= <-] Hs. by left.
  - destruct (load_row t fields) as [t1|] eqn:Hrow; [|done].
    intros Hrest Hs. destruct (IH _ Hrest Hs) as [H1|(f & Hf & H0 & H5)].
    + unfold load_row in Hrow.
      destruct (fields !! 0) as [s0|] eqn:E0; [|done]. destruct (fields !! 4); [|done].
      destruct (fields !! 5) as [q|] eqn:E5; [|done]. destruct (fields !! 8); [|done].
      simpl in Hrow. injection Hrow as <-. simpl in H1.
      destruct (decide (s0 = s)) as [->|Hne].
      * rewrite lookup_insert_eq in H1. injection H1 as ->.
        right. exists fields. split; [apply list_elem_of_here | done].
      * rewrite lookup_insert_ne in H1 by done. by left.
    + right. exists f. split; [by apply list_elem_of_further | done].
Qed.

Lemma shas_with_unique_pmid (rows : list (list string)) (fields : list string) (s p : string) :
  NoDup ((fun fields : list string => fields !! 5) <$> rows) ->
  fields ∈ rows -> fields !! 0 = Some s -> fields !! 5 = Some p ->
  shas_with_pmid p rows = [s].
Proof.
  unfold shas_with_pmid. induction rows as [|r rows IH]; csimpl; intros Hnd Hin H0 H5.
  - by apply elem_of_nil in Hin.
  - apply NoDup_cons in Hnd as [Hr Hnd]. apply elem_of_cons in Hin as [->|Hin].
    + rewrite decide_True by done. rewrite H0. simpl. f_equal.
      clear IH. induction rows as [|r' rows IH']; csimpl; [done|].
      apply not_elem_of_cons in Hr as [Hne Hr]. apply NoDup_cons in Hnd as [_ Hnd].
      rewrite decide_False by congruence. by apply IH'.
    + rewrite decide_False.
      * by apply IH.
      * intros Hr5. apply Hr. rewrite Hr5, <- H5. by apply list_elem_of_fmap_2.
Qed.

(** X12: when no two rows carry the same id in field 5, [get_sha] undoes
    [get_pmid]: the id recorded for a ['sha'] resolves to that ['sha']. *)
Theorem get_sha_get_pmid (rows : list (list string)) (t : tables) (s p : string) :
  NoDup ((fun fields : list string => fields !! 5) <$> rows) ->
  load_tables rows = Some t ->
  get_pmid t s = Some p ->
  get_sha (metadata_of t) (JStr p) = Ok (Some s).
Proof.
  intros Hnd Hload Hp. simpl. rewrite (load_rows_to_sha _ _ _ p Hload).
  destruct (load_rows_sha2pmid _ _ _ s p Hload Hp) as [Hempty|(fields & Hin & H0 & H5)].
  - simpl in Hempty. by rewrite lookup_empty in Hempty.
  - by rewrite (shas_with_unique_pmid rows fields s p).
Qed.

Lemma get_sha_get_pmid_witness :
  exists t,
    NoDup ((fun fields : list string => fields !! 5) <$> sample_rows) /\
    load_tables sample_rows = Some t /\
    get_pmid t "fd955af6" = Some "19325820" /\
    get_sha (metadata_of t) (JStr "19325820") = Ok (Some "fd955af6").
Proof.
  assert (Hnd : NoDup ((fun fields : list string => fields !! 5) <$> sample_rows))
    by compute_done.
  eexists. split; [exact Hnd|]. split; [vm_compute; reflexivity|].
  split; [vm_compute; reflexivity|].
  apply (get_sha_get_pmid sample_rows _ "fd955af6" "19325820" Hnd); vm_compute; reflexivity.
Defined.

(** ** The relations of an index document *)

Lemma collect_subjects_lookup (relobj k : string) (subjs : list string)
    (relations : list (string * list string)) :
  odict.get k (fold_left (collect_subject relobj) subjs relations) =
  match odict.get k relations with
  | Some l => Some (if decide (relobj = k) then l ++ subjs else l)
  | None => None
  end.
Proof.
  revert relations. induction subjs as [|subj subjs IH]; simpl; intros relations.
  - destruct (odict.get k relations); [|done]. by destruct (decide (relobj = k)); rewrite ?app_nil_r.
  - rewrite IH. unfold collect_subject.
    destruct (odict.get relobj relations) as [l0|] eqn:Hrel.
    + rewrite get_alter. destruct (decide (relobj = k)) as [->|Hne].
      * rewrite Hrel. simpl. by rewrite <- app_assoc.
      * by destruct (odict.get k relations).
    + destruct (decide (relobj = k)) as [->|Hne]; [by rewrite Hrel|].
      by destruct (odict.get k relations).
Qed.

Lemma collect_document_relations_loop (har_relations relations : list (string * list string))
    (k : string) :
  NoDup (odict.keys har_relations) ->
  odict.get k (collect_document_relations har_relations relations) =
  match odict.get k relations with
  | Some l => Some (l ++ default [] (odict.get k har_relations))
  | None => None
  end.
Proof.
  unfold collect_document_relations, odict.keys.
  revert relations. induction har_relations as [|[relobj subjs] har IH]; csimpl;
    intros relations Hnd.
  - destruct (odict.get k relations); [by rewrite app_nil_r | done].
  - apply NoDup_cons in Hnd as [Hfresh Hnd]. rewrite IH, collect_subjects_lookup by done.
    destruct (odict.get k relations) as [l|]; [|done].
    destruct (decide (relobj = k)) as [->|Hne]; [|done].
    apply odict_facts.get_None in Hfresh. rewrite Hfresh. simpl. by rewrite app_nil_r.
Qed.

Lemma empty_lists_lookup (k : string) (rs : list string) :
  odict.get k ((fun rel : string => (rel, @nil string)) <$> rs)
  = if decide (k ∈ rs) then Some [] else None.
Proof.
  induction rs as [|r rs IH].
  - destruct (decide (k ∈ [])) as [Hin|]; [by apply elem_of_nil in Hin | done].
  - rewrite fmap_cons. simpl. rewrite IH.
    destruct (decide (r = k)) as [->|Hne].
    + destruct (decide (k ∈ k :: rs)) as [|Hnin]; [done|].
      exfalso. apply Hnin, list_elem_of_here.
    + destruct (decide (k ∈ rs)) as [Hin|Hnin], (decide (k ∈ r :: rs)) as [Hin'|Hnin'];
        try done.
      * exfalso. by apply Hnin', list_elem_of_further.
      * apply elem_of_cons in Hin' as [->|Hin']; done.
Qed.

Lemma annotations_relations_lookup (k : string) :
  odict.get k annotations_relations = if decide (k ∈ RELATIONS) then Some [] else None.
Proof. apply empty_lists_lookup. Qed.

(** X15: the relations of an index document have the reified relations of
    [Annotations.RELATIONS] as their keys and no other; each holds the
    subjects listed for it in the relations of the file, as they are listed,
    and the empty list when the file has none; what the file lists for any
    other reified relation is left out. *)
Theorem collect_document_relations_lookup (har_relations : list (string * list string))
    (relobj : string) :
  NoDup (odict.keys har_relations) ->
  odict.get relobj (collect_document_relations har_relations annotations_relations) =
  if decide (relobj ∈ RELATIONS)
  then Some (default [] (odict.get relobj har_relations))
  else None.
Proof.
  intros Hnd. rewrite collect_document_relations_loop, annotations_relations_lookup by done.
  by destruct (decide (relobj ∈ RELATIONS)).
Qed.

Lemma collect_document_relations_lookup_witness :
  NoDup (odict.keys [("TNF-activator", ["IL12"; "IL12"]); ("TNF-increaser", ["IL6"])]) /\
  odict.get "TNF-activator"
    (collect_document_relations
       [("TNF-activator", ["IL12"; "IL12"]); ("TNF-increaser", ["IL6"])] annotations_relations) =
  if decide ("TNF-activator" ∈ RELATIONS)
  then Some (default [] (odict.get "TNF-activator"
                           [("TNF-activator", ["IL12"; "IL12"]); ("TNF-increaser", ["IL6"])]))
  else None.
Proof.
  assert (Hnd : NoDup (odict.keys [("TNF-activator", ["IL12"; "IL12"]);
                                   ("TNF-increaser", ["IL6"])])) by compute_done.
  split; [exact Hnd|].
  exact (collect_document_relations_lookup _ "TNF-activator" Hnd).
Defined.
